(** * go-attestation: the demo attestation server and the EK certificate verifier

    A shallow embedding of
    - [attest/demo/server.go] and [attest/demo/rpc.go]: the per-AIK client
      registry and the four RPC handlers (activation challenge, activation,
      attestation nonce, attestation), and
    - the [verifier] package's EK certificate code: [NewEKVerifier],
      [readCertificates], [parseCertsToPool] and [VerifyEKCert].

    Go values are modelled as follows.
    - [[]byte] is [list byte]; a nil slice and an empty slice are both [[]],
      which is all that [len] and [bytes.Equal] can tell apart.
    - [error] is the inductive [error] below, which keeps what the code
      inspects: [os.IsNotExist], [x509.IsFatal] and the message.
    - a [(T, error)] return is [result T]; a run-time panic (nil pointer
      dereference, index out of range) is the [Panics] outcome.
    - packages outside the repository's sources ([encoding/pem], [crypto/x509],
      [attest], [verifier.VerifyQuote], [os], [io/ioutil], [filepath.Join])
      are records of operations that the definitions take as arguments;
      [filepath.Ext], [strings.Join] and [bytes.Equal] are written out, with
      the Unix path separator.
    - every handler runs between [s.lock.Lock()] and the deferred
      [s.lock.Unlock()], so a handler is one transition of the server state.
      Writes to stdout and stderr are left out. *)

From Stdlib Require Import ZArith String Ascii List Bool Lia DecimalString.
From Stdlib.Strings Require Import Byte.
From stdpp Require Import base option list strings gmap.

Local Open Scope string_scope.
Local Open Scope list_scope.

(** ** Go values *)

Definition bytes := list byte.

(** [bytes.Equal]: same length and same bytes. *)
Fixpoint bytes_Equal (a b : bytes) : bool :=
  match a, b with
  | [], [] => true
  | x :: a', y :: b' => Byte.eqb x y && bytes_Equal a' b'
  | _, _ => false
  end.

(** Go's [error] values, as far as this code looks into them. *)
Inductive error : Type :=
| PathError (notExist : bool) (msg : string)  (* from os and io/ioutil *)
| X509Error (fatal : bool) (msg : string)     (* from the x509 package *)
| ErrorString (msg : string).                 (* fmt.Errorf and all others *)

Definition Error (e : error) : string :=
  match e with
  | PathError _ msg | X509Error _ msg | ErrorString msg => msg
  end.

Definition os_IsNotExist (e : error) : bool :=
  match e with
  | PathError notExist _ => notExist
  | _ => false
  end.

(** [x509.IsFatal] on a non-nil error: only the package's non-fatal errors
    are not fatal. *)
Definition x509_IsFatal (e : error) : bool :=
  match e with
  | X509Error fatal _ => fatal
  | _ => true
  end.

Inductive result (A : Type) : Type :=
| Ok (a : A)
| Err (e : error).
Arguments Ok {A} a.
Arguments Err {A} e.


Inductive outcome (A : Type) : Type :=
| Returns (a : A)
| Panics (msg : string).
Arguments Returns {A} a.
Arguments Panics {A} msg.

Definition nil_dereference : string :=
  "runtime error: invalid memory address or nil pointer dereference".
Definition index_out_of_range : string :=
  "runtime error: index out of range".

(** * The demo server *)

Module Demo.

(** ** Data, from [server.go] and [rpc.go] *)

Record AttestationParameters := {
  Public : bytes;
  UseTCSDActivationFormat : bool;
  CreateData : bytes;
  CreateAttestation : bytes;
  CreateSignature : bytes
}.

Record rsa_PublicKey := { rsa_N : Z; rsa_E : Z }.

Record EncryptedCredential := { Credential : bytes; Secret : bytes }.

Record Quote := { Quote_Quote : bytes; Quote_Signature : bytes }.

(** [verifier/proto]: message QuoteVerificationResults. *)
Record QuoteVerificationResults := {
  succeeded : bool;
  signature_mismatch : bool;
  pcr_digest : bytes;
  pcr_digest_mismatch : bool;
  nonce_mismatch : bool
}.

Record ActivationParameters := {
  ap_TPMVersion : Z;
  ap_EK : rsa_PublicKey;
  ap_AIK : AttestationParameters
}.

Record clientInfo := {
  AIK : AttestationParameters;
  EK : option rsa_PublicKey;
  ActivationSecret : bytes;
  Activated : bool;
  Nonce : bytes;
  AttestResults : option QuoteVerificationResults
}.

Record server := { state : list clientInfo }.

Record requestData := {
  rd_TPMVersion : Z;
  rd_AIK : AttestationParameters;
  EKPem : bytes;
  DecryptedCredential : bytes;
  rd_Quote : Quote;
  PCRs : gmap N bytes
}.

Record responseData := {
  ActivationChallenge : EncryptedCredential;
  resp_Nonce : bytes
}.

Definition zero_EncryptedCredential : EncryptedCredential :=
  {| Credential := []; Secret := [] |}.

(** The composite literal [responseData{}]. *)
Definition responseData_zero : responseData :=
  {| ActivationChallenge := zero_EncryptedCredential; resp_Nonce := [] |}.

(** The composite literal
    [clientInfo{AIK: attest.AttestationParameters{Public: pub}}]. *)
Definition clientInfo_new (pub : bytes) : clientInfo :=
  {| AIK := {| Public := pub; UseTCSDActivationFormat := false;
               CreateData := []; CreateAttestation := [];
               CreateSignature := [] |};
     EK := None; ActivationSecret := []; Activated := false;
     Nonce := []; AttestResults := None |}.

(** An incoming request: its body either decodes as JSON into a
    [requestData] or it does not. *)
Inductive http_Request :=
| MalformedBody (e : error)
| JSONBody (rd : requestData).

Definition unmarshalRequestBody (r : http_Request) : result requestData :=
  match r with
  | MalformedBody e => Err e
  | JSONBody rd => Ok rd
  end.

Definition StatusBadRequest : Z := 400.
Definition StatusInternalServerError : Z := 500.

(** What a handler leaves on the wire: [http.Error(w, msg, code)], a JSON
    encoded [responseData] (status 200), or nothing because it panicked. *)
Inductive response :=
| http_Error (msg : string) (code : Z)
| json_Encode (d : responseData)
| handler_panic (msg : string).

(** The packages the server calls. [Generate] and [VerifyQuote] belong to
    the [attest] and [verifier] packages; [Generate] draws its secret from
    [crypto/rand], passed here as the bytes it reads. *)
Class Collaborators := {
  pem_Decode : bytes -> option bytes;
  x509_ParsePKCS1PublicKey : bytes -> result rsa_PublicKey;
  Generate : bytes -> ActivationParameters ->
             result (bytes * EncryptedCredential);
  VerifyQuote : Z -> bytes -> bytes -> bytes -> gmap N bytes -> bytes ->
                result QuoteVerificationResults
}.

Section Server.
Context `{Collaborators}.

(** [rd.EKPublic()]: [pem.Decode] returns a nil block when the input holds
    no PEM data, and [b.Bytes] is read without a nil check. *)
Definition EKPublic (rd : requestData) : outcome (result rsa_PublicKey) :=
  match pem_Decode (EKPem rd) with
  | None => Panics nil_dereference
  | Some b => Returns (x509_ParsePKCS1PublicKey b)
  end.

(** The loop of [server.clientInfo]: the index of the first record whose
    AIK public blob equals [pub]. *)
Fixpoint scan (st : list clientInfo) (pub : bytes) : option nat :=
  match st with
  | [] => None
  | c :: st' =>
      if bytes_Equal (Public (AIK c)) pub then Some 0%nat
      else S <$> scan st' pub
  end.

(** [s.clientInfo(pub)]: the pointer [&s.state[i]] is the index [i]. *)
Definition server_clientInfo (s : server) (pub : bytes) : server * nat :=
  match scan (state s) pub with
  | Some i => (s, i)
  | None => ({| state := state s ++ [clientInfo_new pub] |}, length (state s))
  end.

(** Reading and writing through the pointer. *)
Definition load (s : server) (i : nat) : option clientInfo := state s !! i.
Definition store (s : server) (i : nat) (f : clientInfo -> clientInfo) : server :=
  {| state := alter f i (state s) |}.

Definition set_challenge (aik : AttestationParameters) (secret : bytes)
    (ek : rsa_PublicKey) (c : clientInfo) : clientInfo :=
  {| AIK := aik; EK := Some ek; ActivationSecret := secret;
     Activated := false; Nonce := Nonce c; AttestResults := AttestResults c |}.

Definition set_Activated (b : bool) (c : clientInfo) : clientInfo :=
  {| AIK := AIK c; EK := EK c; ActivationSecret := ActivationSecret c;
     Activated := b; Nonce := Nonce c; AttestResults := AttestResults c |}.

Definition set_Nonce (n : bytes) (c : clientInfo) : clientInfo :=
  {| AIK := AIK c; EK := EK c; ActivationSecret := ActivationSecret c;
     Activated := Activated c; Nonce := n; AttestResults := AttestResults c |}.

Definition set_AttestResults (q : QuoteVerificationResults) (c : clientInfo)
    : clientInfo :=
  {| AIK := AIK c; EK := EK c; ActivationSecret := ActivationSecret c;
     Activated := Activated c; Nonce := Nonce c; AttestResults := Some q |}.

Definition internal_server_error : response :=
  http_Error "Internal server error" StatusInternalServerError.

(** [activationGetChallenge], the handler of /get/activation-challenge.
    [rnd] is what [ap.Generate] reads from [crypto/rand]. *)
Definition activationGetChallenge (rnd : bytes) (s : server) (r : http_Request)
    : server * response :=
  match unmarshalRequestBody r with
  | Err _ => (s, internal_server_error)
  | Ok rd =>
    match EKPublic rd with
    | Panics msg => (s, handler_panic msg)
    | Returns (Err _) => (s, internal_server_error)
    | Returns (Ok ek) =>
      let ap := {| ap_TPMVersion := rd_TPMVersion rd; ap_EK := ek;
                   ap_AIK := rd_AIK rd |} in
      match Generate rnd ap with
      | Err _ => (s, internal_server_error)
      | Ok (secret, ec) =>
        let '(s1, c) := server_clientInfo s (Public (rd_AIK rd)) in
        (store s1 c (set_challenge (rd_AIK rd) secret ek),
         json_Encode {| ActivationChallenge := ec; resp_Nonce := [] |})
      end
    end
  end.

(** [activate], the handler of /do/activation. *)
Definition activate (s : server) (r : http_Request) : server * response :=
  match unmarshalRequestBody r with
  | Err _ => (s, internal_server_error)
  | Ok rd =>
    let '(s1, c) := server_clientInfo s (Public (rd_AIK rd)) in
    match load s1 c with
    | None => (s1, handler_panic index_out_of_range)
    | Some ci =>
      if (length (ActivationSecret ci) =? 0)%nat
         || negb (bytes_Equal (ActivationSecret ci) (DecryptedCredential rd))
      then (s1, http_Error "Activation failed" StatusBadRequest)
      else (store s1 c (set_Activated true), json_Encode responseData_zero)
    end
  end.

(** [getNonce], the handler of /get/attest-nonce. [n] is the 32-byte buffer
    after [io.ReadFull(rand.Reader, n)]. *)
Definition getNonce (n : bytes) (s : server) (r : http_Request)
    : server * response :=
  match unmarshalRequestBody r with
  | Err _ => (s, internal_server_error)
  | Ok rd =>
    let '(s1, c) := server_clientInfo s (Public (rd_AIK rd)) in
    (store s1 c (set_Nonce n),
     json_Encode {| ActivationChallenge := zero_EncryptedCredential;
                    resp_Nonce := n |})
  end.

(** [attest], the handler of /do/attest. *)
Definition attest (s : server) (r : http_Request) : server * response :=
  match unmarshalRequestBody r with
  | Err _ => (s, internal_server_error)
  | Ok rd =>
    let '(s1, c) := server_clientInfo s (Public (rd_AIK rd)) in
    match load s1 c with
    | None => (s1, handler_panic index_out_of_range)
    | Some ci =>
      match VerifyQuote (rd_TPMVersion rd) (Public (rd_AIK rd))
                        (Quote_Quote (rd_Quote rd))
                        (Quote_Signature (rd_Quote rd)) (PCRs rd) (Nonce ci) with
      | Err _ => (s1, internal_server_error)
      | Ok qVerification =>
        (store s1 c (set_AttestResults qVerification),
         json_Encode responseData_zero)
      end
    end
  end.

(** The call of [VerifyQuote] that [attest] makes for the request [rd] when
    the record holds [nonce]. *)
Definition quote_verdict (rd : requestData) (nonce : bytes)
    : result QuoteVerificationResults :=
  VerifyQuote (rd_TPMVersion rd) (Public (rd_AIK rd))
              (Quote_Quote (rd_Quote rd)) (Quote_Signature (rd_Quote rd))
              (PCRs rd) nonce.

(** The [ActivationParameters] literal of [activationGetChallenge]. *)
Definition challenge_parameters (rd : requestData) (ek : rsa_PublicKey)
    : ActivationParameters :=
  {| ap_TPMVersion := rd_TPMVersion rd; ap_EK := ek; ap_AIK := rd_AIK rd |}.

(** The record the registry hands out for [pub]: what [s.clientInfo(pub)]
    points at. *)
Definition record_of (s : server) (pub : bytes) : option clientInfo :=
  let '(s1, c) := server_clientInfo s pub in load s1 c.

End Server.

(** ** The registry read as a function of the list of records

    [first_with st pub] is the record the loop of [server.clientInfo] stops
    at, and [upsert pub f st] is the list after [f] is applied through the
    pointer that [s.clientInfo(pub)] returns. *)
Fixpoint first_with (st : list clientInfo) (pub : bytes) : option clientInfo :=
  match st with
  | [] => None
  | c :: st' =>
      if bytes_Equal (Public (AIK c)) pub then Some c else first_with st' pub
  end.

Fixpoint upsert (pub : bytes) (f : clientInfo -> clientInfo)
    (st : list clientInfo) : list clientInfo :=
  match st with
  | [] => [f (clientInfo_new pub)]
  | c :: st' =>
      if bytes_Equal (Public (AIK c)) pub then f c :: st'
      else c :: upsert pub f st'
  end.

(** ** Stand-ins for the packages, to run the handlers on concrete requests *)

(** A PEM block is found exactly when the input is not empty; its bytes are
    the input. *)
Definition toy_pem_Decode (b : bytes) : option bytes :=
  match b with
  | [] => None
  | _ => Some b
  end.

Definition toy_ParsePKCS1PublicKey (b : bytes) : result rsa_PublicKey :=
  match b with
  | [x30] => Ok {| rsa_N := 3233; rsa_E := 17 |}
  | _ => Err (ErrorString "asn1: structure error")
  end.

(** The secret is the random input, the credential wraps it. *)
Definition toy_Generate (rnd : bytes) (ap : ActivationParameters)
    : result (bytes * EncryptedCredential) :=
  Ok (rnd, {| Credential := rnd; Secret := Public (ap_AIK ap) |}).

(** Modelled from the spec: [verifier.VerifyQuote] is not among the sources.
    Of the three steps of the quote verifier (signature check, nonce binding,
    register digest check) this stand-in keeps the nonce binding: the quote's
    embedded challenge, here the whole quote, must equal the nonce exactly.
    The signature is taken to verify when it equals the public blob, and the
    digest check to pass. *)
Definition toy_VerifyQuote (ver : Z) (pub quote sig : bytes)
    (pcrs : gmap N bytes) (nonce : bytes) : result QuoteVerificationResults :=
  let sig_bad := negb (bytes_Equal sig pub) in
  let nonce_bad := negb (bytes_Equal quote nonce) in
  Ok {| succeeded := negb sig_bad && negb nonce_bad;
        signature_mismatch := sig_bad;
        pcr_digest := [];
        pcr_digest_mismatch := false;
        nonce_mismatch := nonce_bad |}.

Definition toy : Collaborators :=
  {| pem_Decode := toy_pem_Decode;
     x509_ParsePKCS1PublicKey := toy_ParsePKCS1PublicKey;
     Generate := toy_Generate;
     VerifyQuote := toy_VerifyQuote |}.

Definition aik_of (pub : bytes) : AttestationParameters :=
  {| Public := pub; UseTCSDActivationFormat := false; CreateData := [];
     CreateAttestation := []; CreateSignature := [] |}.

(** A request for the AIK with public blob [pub], carrying an EK, a claimed
    secret and a quote. *)
Definition request (pub ekpem cred quote sig : bytes) : requestData :=
  {| rd_TPMVersion := 2; rd_AIK := aik_of pub; EKPem := ekpem;
     DecryptedCredential := cred;
     rd_Quote := {| Quote_Quote := quote; Quote_Signature := sig |};
     PCRs := ∅ |}.

Definition empty_server : server := {| state := [] |}.


(** The server after one challenge for the blob [01] with secret [0a 0b]. *)
Definition challenged : server :=
  fst (@activationGetChallenge toy [x0a; x0b] empty_server
         (JSONBody (request [x01] [x30] [] [] []))).

Definition challenged_record : clientInfo :=
  set_challenge (aik_of [x01]) [x0a; x0b] {| rsa_N := 3233; rsa_E := 17 |}
                (clientInfo_new [x01]).

Definition activated_once : server :=
  fst (activate challenged (JSONBody (request [x01] [] [x0a; x0b] [] []))).

(** ** The routes of [RunServer] and runs of the server *)

(** The four patterns [RunServer] registers on the mux, each with its
    handler. Requests to other paths reach no handler of the server. *)
Inductive rpc :=
| GetActivationChallenge   (* /get/activation-challenge *)
| DoActivation             (* /do/activation *)
| GetAttestNonce           (* /get/attest-nonce *)
| DoAttest.                (* /do/attest *)

Definition pattern (p : rpc) : string :=
  match p with
  | GetActivationChallenge => "/get/activation-challenge"
  | DoActivation => "/do/activation"
  | GetAttestNonce => "/get/attest-nonce"
  | DoAttest => "/do/attest"
  end.

(** [n := make([]byte, 32); io.ReadFull(rand.Reader, n)]: the buffer holds
    the bytes the reader supplied and zeros where it fell short. *)
Definition read_nonce (rnd : bytes) : bytes :=
  take 32 (rnd ++ replicate 32 x00).

Section Routes.
Context `{Collaborators}.

(** One request served: [rnd] is what [crypto/rand] supplies during it. *)
Definition handle (rnd : bytes) (s : server) (p : rpc) (r : http_Request)
    : server * response :=
  match p with
  | GetActivationChallenge => activationGetChallenge rnd s r
  | DoActivation => activate s r
  | GetAttestNonce => getNonce (read_nonce rnd) s r
  | DoAttest => attest s r
  end.

(** The state after a sequence of requests, served one at a time as the
    server lock makes them. *)
Fixpoint run (s : server) (calls : list (bytes * rpc * http_Request))
    : server :=
  match calls with
  | [] => s
  | (rnd, p, r) :: calls' => run (fst (handle rnd s p r)) calls'
  end.

End Routes.

Definition blob (c : clientInfo) : bytes := Public (AIK c).

(** The public blob a request names, when its body decodes. *)
Definition request_blob (r : http_Request) : option bytes :=
  match r with
  | MalformedBody _ => None
  | JSONBody rd => Some (Public (rd_AIK rd))
  end.

(** The writes a handler makes through the pointer to the record. *)
Inductive write :=
| WriteNothing
| WriteChallenge (aik : AttestationParameters) (secret : bytes)
                 (ek : rsa_PublicKey)
| WriteActivated
| WriteNonce (n : bytes)
| WriteAttestResults (q : QuoteVerificationResults).

Definition apply_write (w : write) (c : clientInfo) : clientInfo :=
  match w with
  | WriteNothing => c
  | WriteChallenge aik secret ek => set_challenge aik secret ek c
  | WriteActivated => set_Activated true c
  | WriteNonce n => set_Nonce n c
  | WriteAttestResults q => set_AttestResults q c
  end.

(** The guard of [activate], on the record [c] and the claimed secret. *)
Definition activation_refused (c : clientInfo) (cred : bytes) : bool :=
  (length (ActivationSecret c) =? 0)%nat
  || negb (bytes_Equal (ActivationSecret c) cred).

(** What a write is allowed to be when it comes from a request naming
    [pub], on the record [c0] the registry hands out for [pub]. *)
Definition write_of_request (pub : bytes) (c0 : clientInfo) (w : write) : Prop :=
  match w with
  | WriteNothing => True
  | WriteChallenge aik _ _ => Public aik = pub
  | WriteActivated => ActivationSecret c0 <> []
  | WriteNonce n => length n = 32%nat
  | WriteAttestResults _ => True
  end.

(** A record is activated only after a challenge: an activated record has a
    pending secret, and a record with a pending secret has an endorsement
    key. *)
Definition challenged_before_activated (c : clientInfo) : Prop :=
  (Activated c = true -> ActivationSecret c <> [])
  /\ (ActivationSecret c <> [] -> EK c <> None).

(** A stored nonce is absent or 32 bytes long. *)
Definition nonce_sized (c : clientInfo) : Prop :=
  Nonce c = [] \/ length (Nonce c) = 32%nat.

End Demo.

(** * The EK certificate verifier *)

Module Verifier.

(** ** Data *)

(** [os.FileInfo], as far as the code reads it. *)
Record FileInfo := { Name : string; IsDir : bool }.

Record pkix_Name := { CommonName : string; Organization : list string }.

Record Certificate := {
  Raw : bytes;
  Issuer : pkix_Name;
  SerialNumber : Z;
  UnhandledCriticalExtensions : list (list Z)
}.

(** [verifier/proto]: message EkcertVerificationResults. *)
Record CertSummary := {
  issuer_cn : string;
  issuer_org : string;
  serial : string
}.

Record EkcertVerificationResults := {
  succeeded : bool;
  chain_verified : bool;
  chain : list CertSummary;
  verification_error : string
}.

Definition ExtKeyUsage := Z.
Definition ExtKeyUsageAny : ExtKeyUsage := 0%Z.

Record VerifyOptions (CertPool : Type) := {
  Roots : CertPool;
  Intermediates : CertPool;
  KeyUsages : list ExtKeyUsage
}.
Arguments Roots {CertPool} _.
Arguments Intermediates {CertPool} _.
Arguments KeyUsages {CertPool} _.

(** The x509 package of certificate-transparency-go. [ParseCertificate] and
    [Verify] return Go pairs: a possibly nil certificate (or the chains) and
    a possibly nil error. [AppendCertsFromPEM] returns the pool it leaves and
    whether any certificate was appended. *)
Class X509 := {
  CertPool : Type;
  NewCertPool : CertPool;
  AddCert : CertPool -> Certificate -> CertPool;
  AppendCertsFromPEM : CertPool -> bytes -> CertPool * bool;
  ParseCertificate : bytes -> option Certificate * option error;
  Verify : Certificate -> VerifyOptions CertPool ->
           list (list Certificate) * option error
}.

(** The file system, through io/ioutil and path/filepath. *)
Class FileSystem := {
  ioutil_ReadDir : string -> result (list FileInfo);
  ioutil_ReadFile : string -> result bytes;
  filepath_Join : string -> string -> string
}.

Record EKVerifier `{X509} := {
  roots : CertPool;
  intermediates : CertPool
}.

(** ** Go library functions written out *)

Definition os_IsPathSeparator (c : ascii) : bool := Ascii.eqb c "/"%char.

(** [filepath.Ext]: the loop runs [i] from [len(path)-1] down to 0 and stops
    at a path separator; [n] is [i+1]. *)
Fixpoint Ext_loop (path : string) (n : nat) : string :=
  match n with
  | O => ""
  | S i =>
      match String.get i path with
      | None => ""
      | Some c =>
          if os_IsPathSeparator c then ""
          else if Ascii.eqb c "."%char
               then String.substring i (String.length path - i) path
               else Ext_loop path i
      end
  end.

Definition filepath_Ext (path : string) : string :=
  Ext_loop path (String.length path).

(** [strings.Join]. *)
Definition strings_Join (elems : list string) (sep : string) : string :=
  String.concat sep elems.

(** The [String] method of [big.Int]: the decimal text. *)
Definition big_Int_String (x : Z) : string :=
  NilZero.string_of_int (Z.to_int x).

(** [strings.HasSuffix]. *)
Definition strings_HasSuffix (s suffix : string) : bool :=
  (String.length suffix <=? String.length s)%nat
  && String.eqb (String.substring (String.length s - String.length suffix)
                                  (String.length suffix) s) suffix.

(** ** Sequencing calls that may return an error or panic *)

Definition go (A : Type) : Type := outcome (result A).

Definition go_bind {A B} (m : go A) (k : A -> go B) : go B :=
  match m with
  | Returns (Ok a) => k a
  | Returns (Err e) => Returns (Err e)
  | Panics msg => Panics msg
  end.

Definition go_ok {A} (a : A) : go A := Returns (Ok a).
Definition go_err {A} (e : error) : go A := Returns (Err e).

Notation "x <- m ;; k" := (go_bind m (fun x => k))
  (at level 100, m at next level, right associativity).

(** [err != nil && x509.IsFatal(err)]. *)
Definition fatal (err : option error) : bool :=
  match err with
  | Some e => x509_IsFatal e
  | None => false
  end.

Section Code.
Context `{X509} `{FileSystem}.

(** [pool.AddCert(c)]: the library panics on a nil certificate. *)
Definition pool_AddCert (pool : CertPool) (c : option Certificate) : go CertPool :=
  match c with
  | None => Panics "adding nil Certificate to CertPool"
  | Some c => go_ok (AddCert pool c)
  end.

Definition parse_failed (info : FileInfo) (err : option error) : error :=
  ErrorString (Name info ++ " parse failed: "
               ++ match err with Some e => Error e | None => "<nil>" end)%string.

(** One iteration of the loop of [parseCertsToPool]. *)
Definition parseCertsToPool_body (path : string) (pool : CertPool)
    (info : FileInfo) : go CertPool :=
  if IsDir info then go_ok pool
  else
    let path := filepath_Join path (Name info) in
    let ext := filepath_Ext (Name info) in
    if String.eqb ext ".der" then
      match ioutil_ReadFile path with
      | Err e => go_err e
      | Ok d =>
          let '(c, err) := ParseCertificate d in
          if fatal err then go_err (parse_failed info err)
          else pool_AddCert pool c
      end
    else if String.eqb ext ".crt" || String.eqb ext ".cer" then
      match ioutil_ReadFile path with
      | Err e => go_err e
      | Ok d =>
          let '(c, err) := ParseCertificate d in
          if fatal err then
            let '(pool', ok) := AppendCertsFromPEM pool d in
            if negb ok then go_err (parse_failed info err)
            else go_ok pool'
          else
            match err with
            | None => pool_AddCert pool c
            | Some _ => go_ok pool
            end
      end
    else go_ok pool.

Fixpoint parseCertsToPool (path : string) (files : list FileInfo)
    (pool : CertPool) : go CertPool :=
  match files with
  | [] => go_ok pool
  | info :: files' =>
      pool' <- parseCertsToPool_body path pool info ;;
      parseCertsToPool path files' pool'
  end.

(** [readCertificates]; the two pools are passed along and returned. *)
Definition readCertificates (dir : string) (roots intermediates : CertPool)
    : go (CertPool * CertPool) :=
  roots' <-
    match ioutil_ReadDir (filepath_Join dir "RootCA") with
    | Err e => if negb (os_IsNotExist e) then go_err e else go_ok roots
    | Ok rootFiles =>
        parseCertsToPool (filepath_Join dir "RootCA") rootFiles roots
    end ;;
  match ioutil_ReadDir (filepath_Join dir "IntermediateCA") with
  | Err e =>
      if os_IsNotExist e then go_ok (roots', intermediates) else go_err e
  | Ok intermediateFiles =>
      intermediates' <-
        parseCertsToPool (filepath_Join dir "IntermediateCA")
                         intermediateFiles intermediates ;;
      go_ok (roots', intermediates')
  end.

(** The inner loop of [NewEKVerifier], over the entries of one directory. *)
Fixpoint NewEKVerifier_entries (dir : string) (root : list FileInfo)
    (pools : CertPool * CertPool) : go (CertPool * CertPool) :=
  match root with
  | [] => go_ok pools
  | f :: root' =>
      if negb (IsDir f) then NewEKVerifier_entries dir root' pools
      else
        pools' <- readCertificates (filepath_Join dir (Name f))
                                   (fst pools) (snd pools) ;;
        NewEKVerifier_entries dir root' pools'
  end.

(** The outer loop of [NewEKVerifier], over [certsPath]. *)
Fixpoint NewEKVerifier_dirs (certsPath : list string)
    (pools : CertPool * CertPool) : go (CertPool * CertPool) :=
  match certsPath with
  | [] => go_ok pools
  | dir :: certsPath' =>
      match ioutil_ReadDir dir with
      | Err e => go_err e
      | Ok root =>
          pools' <- NewEKVerifier_entries dir root pools ;;
          NewEKVerifier_dirs certsPath' pools'
      end
  end.

Definition NewEKVerifier (certsPath : list string) : go EKVerifier :=
  pools <- NewEKVerifier_dirs certsPath (NewCertPool, NewCertPool) ;;
  go_ok {| roots := fst pools; intermediates := snd pools |}.

Definition summary (cert : Certificate) : CertSummary :=
  {| issuer_cn := CommonName (Issuer cert);
     issuer_org := strings_Join (Organization (Issuer cert)) " ";
     serial := big_Int_String (SerialNumber cert) |}.

Definition clear_UnhandledCriticalExtensions (c : Certificate) : Certificate :=
  {| Raw := Raw c; Issuer := Issuer c; SerialNumber := SerialNumber c;
     UnhandledCriticalExtensions := [] |}.

(** [verificationErr == nil]. *)
Definition is_nil (err : option error) : bool :=
  match err with
  | None => true
  | Some _ => false
  end.

Definition set_verification_error (msg : string)
    (out : EkcertVerificationResults) : EkcertVerificationResults :=
  {| succeeded := succeeded out; chain_verified := chain_verified out;
     chain := chain out; verification_error := msg |}.

(** The [append]s to [out.Chain] over [chains[0]], in order. *)
Definition append_chain (cs : list CertSummary)
    (out : EkcertVerificationResults) : EkcertVerificationResults :=
  {| succeeded := succeeded out; chain_verified := chain_verified out;
     chain := chain out ++ cs; verification_error := verification_error out |}.

Definition verify_options (v : EKVerifier) : VerifyOptions CertPool :=
  {| Roots := roots v; Intermediates := intermediates v;
     KeyUsages := [ExtKeyUsageAny] |}.

(** [VerifyEKCert]. The field of [c] is written before the parse error is
    looked at, so a nil [c] panics; [chains[0]] panics on no chain. *)
Definition VerifyEKCert (v : EKVerifier) (certBytes : bytes)
    : go EkcertVerificationResults :=
  let '(c, err) := ParseCertificate certBytes in
  match c with
  | None => Panics nil_dereference
  | Some c =>
    let c := clear_UnhandledCriticalExtensions c in
    match (if fatal err then err else None) with
    | Some e => go_err e
    | None =>
      let '(chains, verificationErr) := Verify c (verify_options v) in
      let out := {| succeeded := is_nil verificationErr;
                    chain_verified := is_nil verificationErr;
                    chain := []; verification_error := "" |} in
      match verificationErr with
      | Some e => go_ok (set_verification_error (Error e) out)
      | None =>
          match chains with
          | [] => Panics index_out_of_range
          | chain0 :: _ => go_ok (append_chain (map summary chain0) out)
          end
      end
    end
  end.

(** The two halves of [readCertificates], each on its own pool. *)
Definition read_RootCA (dir : string) (roots : CertPool) : go CertPool :=
  match ioutil_ReadDir (filepath_Join dir "RootCA") with
  | Err e => if negb (os_IsNotExist e) then go_err e else go_ok roots
  | Ok rootFiles =>
      parseCertsToPool (filepath_Join dir "RootCA") rootFiles roots
  end.

Definition read_IntermediateCA (dir : string) (intermediates : CertPool)
    : go CertPool :=
  match ioutil_ReadDir (filepath_Join dir "IntermediateCA") with
  | Err e => if os_IsNotExist e then go_ok intermediates else go_err e
  | Ok intermediateFiles =>
      parseCertsToPool (filepath_Join dir "IntermediateCA")
                       intermediateFiles intermediates
  end.

End Code.

(** Whether a call returned a value: no error and no panic. *)
Definition returned {A} (m : go A) : bool :=
  match m with
  | Returns (Ok _) => true
  | _ => false
  end.

(** Whether a file name ends in one of .der, .crt, .cer. *)
Definition certificate_suffix (name : string) : bool :=
  strings_HasSuffix name ".der" || strings_HasSuffix name ".crt"
  || strings_HasSuffix name ".cer".

(** A manufacturer directory [dir] of [certsPath] is reached by the loops of
    [NewEKVerifier]: it is a subdirectory entry of a listed directory. *)
Definition manufacturer_of `{FileSystem} (certsPath : list string)
    (dir : string) : Prop :=
  exists top root f,
    In top certsPath /\ ioutil_ReadDir top = Ok root /\ In f root
    /\ IsDir f = true /\ dir = filepath_Join top (Name f).

(** ** Stand-ins for the x509 package and the file system *)

Definition toy_cert (d : bytes) : Certificate :=
  {| Raw := d;
     Issuer := {| CommonName := "Toy TPM Root CA";
                  Organization := ["Toy"; "Devices"] |};
     SerialNumber := Z.of_nat (length d);
     UnhandledCriticalExtensions := [[2; 5; 29; 17]%Z] |}.

(** DER input starts with the SEQUENCE tag 0x30; PEM input with a dash. *)
Definition toy_ParseCertificate (d : bytes) : option Certificate * option error :=
  match d with
  | x30 :: _ => (Some (toy_cert d), None)
  | _ => (None, Some (X509Error true "asn1: structure error"))
  end.

Definition toy_AppendCertsFromPEM (pool : list Certificate) (d : bytes)
    : list Certificate * bool :=
  match d with
  | x2d :: rest => (pool ++ [toy_cert rest], true)
  | _ => (pool, false)
  end.

(** A chain is found exactly when some root is configured. *)
Definition toy_Verify (c : Certificate) (opts : VerifyOptions (list Certificate))
    : list (list Certificate) * option error :=
  match Roots opts with
  | [] => ([], Some (X509Error true
                       "x509: certificate signed by unknown authority"))
  | r :: _ => ([[c; r]], None)
  end.

Definition toy_x509 : X509 :=
  {| CertPool := list Certificate;
     NewCertPool := [];
     AddCert := fun pool c => pool ++ [c];
     AppendCertsFromPEM := toy_AppendCertsFromPEM;
     ParseCertificate := toy_ParseCertificate;
     Verify := toy_Verify |}.

Definition no_such_file (path : string) : error :=
  PathError true ("open " ++ path ++ ": no such file or directory")%string.

Definition dir_entry (name : string) : FileInfo :=
  {| Name := name; IsDir := true |}.
Definition file_entry (name : string) : FileInfo :=
  {| Name := name; IsDir := false |}.

(** A certificate store with two manufacturers: [vendor] has only an
    IntermediateCA directory, [other] has only a RootCA directory. Under
    [/locked] the RootCA directory of [tpm] exists but cannot be listed. *)
Definition toy_ReadDir (path : string) : result (list FileInfo) :=
  if String.eqb path "/certs" then
    Ok [file_entry "README.md"; dir_entry "other"; dir_entry "vendor"]
  else if String.eqb path "/certs/vendor/IntermediateCA" then
    Ok [file_entry "ca.der"; file_entry "notes.pem"]
  else if String.eqb path "/certs/other/RootCA" then
    Ok [file_entry "LICENSE"; dir_entry "old"; file_entry "root.crt"]
  else if String.eqb path "/locked" then
    Ok [dir_entry "tpm"]
  else if String.eqb path "/locked/tpm/RootCA" then
    Err (PathError false "open /locked/tpm/RootCA: permission denied")
  else Err (no_such_file path).

Definition toy_ReadFile (path : string) : result bytes :=
  if String.eqb path "/certs/vendor/IntermediateCA/ca.der" then
    Ok [x30; x82; x01; x0a]
  else if String.eqb path "/certs/other/RootCA/root.crt" then
    Ok [x30; x82]
  else Err (no_such_file path).

Definition toy_fs : FileSystem :=
  {| ioutil_ReadDir := toy_ReadDir;
     ioutil_ReadFile := toy_ReadFile;
     filepath_Join := fun a b => (a ++ "/" ++ b)%string |}.

Definition toy_pool (certs : list Certificate) : @CertPool toy_x509 := certs.

Definition toy_verifier : @EKVerifier toy_x509 :=
  {| roots := toy_pool [toy_cert [x30; x82]];
     intermediates := toy_pool [toy_cert [x30; x82; x01; x0a]] |}.


(** A parser that reads the same certificate out of every input, with as
    many unhandled critical extensions as the input has bytes and a
    non-fatal error on inputs longer than one byte. *)
Definition lax_ParseCertificate (d : bytes) : option Certificate * option error :=
  (Some {| Raw := [x30];
           Issuer := {| CommonName := "Toy TPM Root CA";
                        Organization := ["Toy"; "Devices"] |};
           SerialNumber := 1;
           UnhandledCriticalExtensions := replicate (length d) [2; 5; 29; 17]%Z |},
   match d with
   | _ :: _ :: _ =>
       Some (X509Error false "x509: certificate contains negative serial number")
   | _ => None
   end).

Definition lax_x509 : X509 :=
  {| CertPool := list Certificate;
     NewCertPool := [];
     AddCert := fun pool c => pool ++ [c];
     AppendCertsFromPEM := toy_AppendCertsFromPEM;
     ParseCertificate := lax_ParseCertificate;
     Verify := toy_Verify |}.

Definition lax_pool (certs : list Certificate) : @CertPool lax_x509 := certs.

Definition lax_verifier : @EKVerifier lax_x509 :=
  {| roots := lax_pool [toy_cert [x30; x82]]; intermediates := lax_pool [] |}.

End Verifier.

(** * The demo client *)

Module Client.
Import Demo.

(** ** Data of the [attest] and [tpm2] packages, as far as the client reads
    them *)

(** A [crypto.PublicKey] held in an interface: an [*rsa.PublicKey], which
    may be a nil pointer, or a key of another type, with the name of that
    type. *)
Inductive crypto_PublicKey :=
| rsa_key (pk : option rsa_PublicKey)
| other_key (type_name : string).

Definition x509_RSA : Z := 1.

Record ek_Certificate := {
  PublicKeyAlgorithm : Z;
  PublicKey : option crypto_PublicKey
}.

Record PlatformEK := {
  Cert : option ek_Certificate;
  ek_Public : option crypto_PublicKey
}.

Record PCR := { Index : Z; Digest : bytes }.

Definition tpm2_AlgSHA1 : Z := 4.
Definition tpm2_AlgSHA256 : Z := 11.

Inductive HashAlg := HashSHA1 | HashSHA256.

(** The TPM with the key file: [loadAIK] reads [*keyfile] and hands it to
    [tpm.LoadAIK]; the other fields are the methods the client calls. *)
Class TPM := {
  AIKHandle : Type;
  ioutil_ReadFile_keyfile : result bytes;
  tpm_LoadAIK : bytes -> result AIKHandle;
  tpm_EKs : result (list PlatformEK);
  tpm_PCRs : result (list PCR * Z);
  tpm_Version : Z;
  aik_AttestationParameters : AIKHandle -> AttestationParameters;
  aik_Quote : AIKHandle -> bytes -> HashAlg -> result Quote;
  aik_ActivateCredential : AIKHandle -> EncryptedCredential -> result bytes;
  x509_MarshalPKCS1PublicKey : rsa_PublicKey -> bytes;
  pem_Encode : string -> bytes -> result bytes;
  fmt_Algorithm : Z -> string   (* how fmt prints a tpm2.Algorithm *)
}.

(** What [http.Post] returns on success, with the body as the JSON decoder
    will read it. *)
Record http_Response := {
  StatusCode : Z;
  Status : string;
  Body : result responseData
}.

Definition StatusOK : Z := 200.

(** The network: a POST of the JSON encoding of a request to a URL changes
    the world [W] at the other end and gives a response or an error. *)
Class Network (W : Type) := {
  http_Post : string -> requestData -> W -> W * result http_Response
}.

(** ** Calls that change the world and may fail or panic *)

Definition io (W A : Type) : Type := W -> W * outcome (result A).

Definition io_ret {W A} (a : A) : io W A := fun w => (w, Returns (Ok a)).
Definition io_err {W A} (e : error) : io W A := fun w => (w, Returns (Err e)).

Definition io_bind {W A B} (m : io W A) (k : A -> io W B) : io W B :=
  fun w =>
    match m w with
    | (w', Returns (Ok a)) => k a w'
    | (w', Returns (Err e)) => (w', Returns (Err e))
    | (w', Panics msg) => (w', Panics msg)
    end.

(** A call that does not touch the world. *)
Definition io_lift {W A} (m : outcome (result A)) : io W A := fun w => (w, m).

(** [fmt.Errorf(prefix + ": %v", err)]. *)
Definition wrap (prefix : string) (e : error) : error :=
  ErrorString (prefix ++ ": " ++ Error e)%string.

Definition try_wrap {A} (prefix : string) (r : result A) : outcome (result A) :=
  match r with
  | Ok a => Returns (Ok a)
  | Err e => Returns (Err (wrap prefix e))
  end.

Notation "x <~ m ;; k" := (io_bind m (fun x => k))
  (at level 100, m at next level, right associativity).

(** The zero [requestData]. *)
Definition requestData_zero : requestData :=
  {| rd_TPMVersion := 0;
     rd_AIK := {| Public := []; UseTCSDActivationFormat := false;
                  CreateData := []; CreateAttestation := [];
                  CreateSignature := [] |};
     EKPem := []; DecryptedCredential := [];
     rd_Quote := {| Quote_Quote := []; Quote_Signature := [] |};
     PCRs := ∅ |}.

Section Code.
Context `{TPM} {W : Type} `{Network W}.

(** The flag [-addr]. *)
Variable addr : string.

(** [sendRequest]. Encoding the request as JSON is part of [http_Post]; it
    does not fail on a [requestData]. *)
Definition sendRequest (endpoint : string) (request : requestData)
    : io W responseData :=
  fun w =>
    match http_Post ("http://" ++ addr ++ endpoint)%string request w with
    | (w', Err e) => (w', Returns (Err e))
    | (w', Ok resp) =>
        if negb (StatusCode resp =? StatusOK)%Z
        then (w', Returns (Err (ErrorString
                                  (endpoint ++ " failed: " ++ Status resp)%string)))
        else (w', Returns (Body resp))
    end.

(** [loadAIK]. *)
Definition loadAIK : result AIKHandle :=
  match ioutil_ReadFile_keyfile with
  | Err e => Err e
  | Ok d => tpm_LoadAIK d
  end.

(** The type assertion of an interface value to a pointer to
    [rsa.PublicKey]. *)
Definition assert_rsa (k : option crypto_PublicKey)
    : outcome (option rsa_PublicKey) :=
  match k with
  | Some (rsa_key pk) => Returns pk
  | Some (other_key type_name) =>
      Panics ("interface conversion: interface {} is " ++ type_name
              ++ ", not *rsa.PublicKey")%string
  | None =>
      Panics "interface conversion: interface {} is nil, not *rsa.PublicKey"
  end.

(** The loop of [rsaEKPEM] over the EKs: the key [pk] it leaves, nil when it
    ran to the end or when the asserted pointer was nil. *)
Fixpoint rsaEKPEM_loop (eks : list PlatformEK) : outcome (option rsa_PublicKey) :=
  match eks with
  | [] => Returns None
  | ek :: eks' =>
      match Cert ek with
      | Some cert =>
          if (PublicKeyAlgorithm cert =? x509_RSA)%Z
          then assert_rsa (PublicKey cert)
          else match ek_Public ek with
               | Some k => assert_rsa (Some k)
               | None => rsaEKPEM_loop eks'
               end
      | None =>
          match ek_Public ek with
          | Some k => assert_rsa (Some k)
          | None => rsaEKPEM_loop eks'
          end
      end
  end.

(** [rsaEKPEM]. *)
Definition rsaEKPEM : outcome (result bytes) :=
  match tpm_EKs with
  | Err e => Returns (Err (wrap "failed to read EKs" e))
  | Ok eks =>
      match rsaEKPEM_loop eks with
      | Panics msg => Panics msg
      | Returns None => Returns (Err (ErrorString "no EK available"))
      | Returns (Some pk) =>
          try_wrap "failed to PEM encode"
            (pem_Encode "RSA PUBLIC KEY" (x509_MarshalPKCS1PublicKey pk))
      end
  end.

(** [uint32(p.Index)]. *)
Definition uint32 (x : Z) : N := Z.to_N (x mod 2 ^ 32).

(** The loop that fills [outPCRs]. *)
Definition outPCRs (pcrs : list PCR) : gmap N bytes :=
  foldl (fun m p => <[uint32 (Index p) := Digest p]> m) ∅ pcrs.

(** The switch on the PCR bank algorithm. *)
Definition attestAlg (alg : Z) : result HashAlg :=
  if (alg =? tpm2_AlgSHA256)%Z then Ok HashSHA256
  else if (alg =? tpm2_AlgSHA1)%Z then Ok HashSHA1
  else Err (ErrorString ("unknown tpm2.Algorithm: "
                         ++ fmt_Algorithm alg)%string).

(** [runAttest]. *)
Definition runAttest : io W unit :=
  aik <~ io_lift (Returns loadAIK) ;;
  nonce <~ sendRequest "/get/attest-nonce"
             {| rd_TPMVersion := 0; rd_AIK := aik_AttestationParameters aik;
                EKPem := []; DecryptedCredential := [];
                rd_Quote := rd_Quote requestData_zero; PCRs := ∅ |} ;;
  pa <~ io_lift (try_wrap "failed to read PCRs" tpm_PCRs) ;;
  h <~ io_lift (Returns (attestAlg (snd pa))) ;;
  q <~ io_lift (try_wrap "failed to generate quote"
                  (aik_Quote aik (resp_Nonce nonce) h)) ;;
  _ <~ sendRequest "/do/attest"
         {| rd_TPMVersion := tpm_Version;
            rd_AIK := aik_AttestationParameters aik;
            EKPem := []; DecryptedCredential := [];
            rd_Quote := q; PCRs := outPCRs (fst pa) |} ;;
  io_ret tt.

(** [runActivateCredential]. *)
Definition runActivateCredential : io W unit :=
  aik <~ io_lift (Returns loadAIK) ;;
  ek <~ io_lift rsaEKPEM ;;
  challenge <~
    (fun w =>
       match sendRequest "/get/activation-challenge"
               {| rd_TPMVersion := tpm_Version; rd_AIK := aik_AttestationParameters aik;
                  EKPem := ek; DecryptedCredential := [];
                  rd_Quote := rd_Quote requestData_zero; PCRs := ∅ |} w with
       | (w', Returns (Err e)) => (w', Returns (Err (wrap "request failed" e)))
       | other => other
       end) ;;
  secret <~ io_lift (try_wrap "failed to activate credential"
                       (aik_ActivateCredential aik
                          (ActivationChallenge challenge))) ;;
  _ <~ sendRequest "/do/activation"
         {| rd_TPMVersion := 0; rd_AIK := aik_AttestationParameters aik;
            EKPem := []; DecryptedCredential := secret;
            rd_Quote := rd_Quote requestData_zero; PCRs := ∅ |} ;;
  io_ret tt.

(** The four request literals of the client. *)
Definition nonce_request (aik : AIKHandle) : requestData :=
  {| rd_TPMVersion := 0; rd_AIK := aik_AttestationParameters aik;
     EKPem := []; DecryptedCredential := [];
     rd_Quote := rd_Quote requestData_zero; PCRs := ∅ |}.

Definition attest_request (aik : AIKHandle) (q : Quote) (pcrs : list PCR)
    : requestData :=
  {| rd_TPMVersion := tpm_Version;
     rd_AIK := aik_AttestationParameters aik;
     EKPem := []; DecryptedCredential := [];
     rd_Quote := q; PCRs := outPCRs pcrs |}.

Definition challenge_request (aik : AIKHandle) (ek : bytes) : requestData :=
  {| rd_TPMVersion := tpm_Version; rd_AIK := aik_AttestationParameters aik;
     EKPem := ek; DecryptedCredential := [];
     rd_Quote := rd_Quote requestData_zero; PCRs := ∅ |}.

Definition activation_request (aik : AIKHandle) (secret : bytes)
    : requestData :=
  {| rd_TPMVersion := 0; rd_AIK := aik_AttestationParameters aik;
     EKPem := []; DecryptedCredential := secret;
     rd_Quote := rd_Quote requestData_zero; PCRs := ∅ |}.


End Code.

(** ** The client joined to the server

    The world at the other end is the demo server together with what
    [crypto/rand] will supply to its next requests. The transport delivers
    every request to the handler registered for its path and every answer
    back: a JSON answer with status 200, an [http.Error] answer with its
    status and a body that is not JSON, no answer at all when the handler
    panicked, and 404 for any other URL. *)
Record world := { srv : server; entropy : list bytes }.

Definition status_line (code : Z) : string :=
  if (code =? 200)%Z then "200 OK"
  else if (code =? 400)%Z then "400 Bad Request"
  else if (code =? 404)%Z then "404 Not Found"
  else if (code =? 500)%Z then "500 Internal Server Error"
  else NilZero.string_of_int (Z.to_int code).

Definition not_json : error :=
  ErrorString "invalid character looking for beginning of value".

Definition answer (r : response) : result http_Response :=
  match r with
  | json_Encode d =>
      Ok {| StatusCode := 200; Status := status_line 200; Body := Ok d |}
  | http_Error msg code =>
      Ok {| StatusCode := code; Status := status_line code;
            Body := Err not_json |}
  | handler_panic _ => Err (ErrorString "EOF")
  end.

Definition route (addr url : string) : option rpc :=
  if String.eqb url ("http://" ++ addr ++ pattern GetActivationChallenge)
  then Some GetActivationChallenge
  else if String.eqb url ("http://" ++ addr ++ pattern DoActivation)
  then Some DoActivation
  else if String.eqb url ("http://" ++ addr ++ pattern GetAttestNonce)
  then Some GetAttestNonce
  else if String.eqb url ("http://" ++ addr ++ pattern DoAttest)
  then Some DoAttest
  else None.

Definition loopback_Post `{Collaborators} (addr url : string)
    (request : requestData) (w : world) : world * result http_Response :=
  match route addr url with
  | None => (w, answer (http_Error "404 page not found" 404))
  | Some p =>
      let rnd := hd [] (entropy w) in
      let '(s', r) := handle rnd (srv w) p (JSONBody request) in
      ({| srv := s'; entropy := tl (entropy w) |}, answer r)
  end.

Definition loopback `{Collaborators} (addr : string) : Network world :=
  {| http_Post := loopback_Post addr |}.

(** ** A stand-in TPM *)

Definition toy_ek : PlatformEK :=
  {| Cert := None;
     ek_Public := Some (rsa_key (Some {| rsa_N := 3233; rsa_E := 17 |})) |}.

(** The TPM decrypts a credential to the bytes it wraps, which is the
    secret of [toy_Generate]; its quote over a nonce is that nonce, signed
    with the public blob, which is what [toy_VerifyQuote] accepts. *)
Definition toy_tpm (eks : list PlatformEK) : TPM :=
  {| AIKHandle := bytes;
     ioutil_ReadFile_keyfile := Ok [x01];
     tpm_LoadAIK := fun d => Ok d;
     tpm_EKs := Ok eks;
     tpm_PCRs := Ok ([ {| Index := 0; Digest := [xaa] |};
                       {| Index := 7; Digest := [xbb] |} ], tpm2_AlgSHA256);
     tpm_Version := 2;
     aik_AttestationParameters := aik_of;
     aik_Quote := fun pub nonce _ =>
                    Ok {| Quote_Quote := nonce; Quote_Signature := pub |};
     aik_ActivateCredential := fun _ ec => Ok (Credential ec);
     x509_MarshalPKCS1PublicKey := fun _ => [x30];
     pem_Encode := fun _ b => Ok b;
     fmt_Algorithm := fun alg => NilZero.string_of_int (Z.to_int alg) |}.

(** A TPM that decrypts every credential to the same wrong byte. *)
Definition forgetful_tpm : TPM :=
  {| AIKHandle := bytes;
     ioutil_ReadFile_keyfile := Ok [x01];
     tpm_LoadAIK := fun d => Ok d;
     tpm_EKs := Ok [toy_ek];
     tpm_PCRs := Ok ([], tpm2_AlgSHA1);
     tpm_Version := 2;
     aik_AttestationParameters := aik_of;
     aik_Quote := fun pub nonce _ =>
                    Ok {| Quote_Quote := nonce; Quote_Signature := pub |};
     aik_ActivateCredential := fun _ _ => Ok [x00];
     x509_MarshalPKCS1PublicKey := fun _ => [x30];
     pem_Encode := fun _ b => Ok b;
     fmt_Algorithm := fun alg => NilZero.string_of_int (Z.to_int alg) |}.

Definition fresh_world (entropy : list bytes) : world :=
  {| srv := empty_server; entropy := entropy |}.

End Client.

(** * Properties of the EK certificate verifier *)

Section VerifierFacts.
Import Verifier.
Context `{X509} `{FileSystem}.

Lemma length_substring (s : string) (i m : nat) :
  i + m <= String.length s -> String.length (String.substring i m s) = m.
Proof.
  revert i m; induction s as [|c s IH]; intros [|i] [|m]; simpl;
    try reflexivity; try lia.
  - intros Hle. f_equal. apply (IH 0). simpl. lia.
  - intros Hle. apply (IH i 0). lia.
  - intros Hle. apply (IH i (S m)). lia.
Qed.

Lemma substring_all (s : string) : String.substring 0 (String.length s) s = s.
Proof. induction s as [|c s IH]; simpl; [reflexivity|]. rewrite IH. reflexivity. Qed.

Lemma append_cons (c : ascii) (s t : string) :
  (String c s ++ t)%string = String c (s ++ t)%string.
Proof. reflexivity. Qed.

Lemma substring_split (s : string) (i : nat) :
  i <= String.length s ->
  s = (String.substring 0 i s
       ++ String.substring i (String.length s - i) s)%string.
Proof.
  revert i; induction s as [|c s IH]; intros [|i] Hle; simpl in *.
  - reflexivity.
  - lia.
  - rewrite substring_all. reflexivity.
  - rewrite append_cons. f_equal. apply IH. lia.
Qed.

Lemma length_append (s t : string) :
  String.length (s ++ t)%string = String.length s + String.length t.
Proof.
  induction s as [|c s IH]; [reflexivity|].
  rewrite append_cons. simpl. rewrite IH. reflexivity.
Qed.

Lemma substring_append (s t : string) :
  String.substring (String.length s) (String.length t) (s ++ t)%string = t.
Proof.
  induction s as [|c s IH]; [apply substring_all|].
  rewrite append_cons. simpl. apply IH.
Qed.

(** [strings.HasSuffix s suffix] holds exactly when [s] ends in [suffix]. *)
Lemma strings_HasSuffix_spec (s suffix : string) :
  strings_HasSuffix s suffix = true
  <-> exists stem, s = (stem ++ suffix)%string.
Proof.
  unfold strings_HasSuffix. rewrite andb_true_iff, Nat.leb_le, String.eqb_eq.
  split.
  - intros [Hle Hsub].
    exists (String.substring 0 (String.length s - String.length suffix) s).
    pose proof (substring_split s (String.length s - String.length suffix))
      as Hs.
    replace (String.length s - (String.length s - String.length suffix))
      with (String.length suffix) in Hs by lia.
    rewrite Hsub in Hs. apply Hs. lia.
  - intros [stem ->]. rewrite length_append. split; [lia|].
    replace (String.length stem + String.length suffix - String.length suffix)
      with (String.length stem) by lia.
    apply substring_append.
Qed.

(** [filepath.Ext] returns the empty string or a tail of its argument. *)
Lemma Ext_loop_tail (path : string) (n : nat) :
  Ext_loop path n = ""
  \/ exists i, i < n
       /\ Ext_loop path n
          = String.substring i (String.length path - i) path.
Proof.
  induction n as [|i IH]; simpl; [left; reflexivity|].
  destruct (String.get i path) as [c|]; [|left; reflexivity].
  destruct (os_IsPathSeparator c); [left; reflexivity|].
  destruct (Ascii.eqb c "."%char).
  - right. exists i. split; [lia|reflexivity].
  - destruct IH as [IH|(j & Hj & IH)]; [left; assumption|].
    right. exists j. split; [lia|assumption].
Qed.

Lemma Ext_HasSuffix (name ext : string) :
  filepath_Ext name = ext -> ext <> "" -> strings_HasSuffix name ext = true.
Proof.
  unfold filepath_Ext. intros Hext Hne.
  destruct (Ext_loop_tail name (String.length name)) as [He|(i & Hi & He)];
    [congruence|].
  rewrite He in Hext. subst ext. unfold strings_HasSuffix.
  rewrite length_substring by lia.
  replace (String.length name - (String.length name - i)) with i by lia.
  rewrite String.eqb_refl, andb_true_r. apply Nat.leb_le. lia.
Qed.

Lemma Ext_not_certificate (name ext : string) :
  certificate_suffix name = false ->
  ext = ".der" \/ ext = ".crt" \/ ext = ".cer" ->
  String.eqb (filepath_Ext name) ext = false.
Proof.
  intros Hno Hext. apply String.eqb_neq. intros Heq.
  assert (Hs : strings_HasSuffix name ext = true).
  { apply Ext_HasSuffix; [assumption|].
    destruct Hext as [->|[->| ->]]; discriminate. }
  unfold certificate_suffix in Hno.
  apply orb_false_iff in Hno as [Hno Hcer].
  apply orb_false_iff in Hno as [Hder Hcrt].
  destruct Hext as [->|[->| ->]]; congruence.
Qed.

Lemma body_skips (path : string) (pool : CertPool) (info : FileInfo) :
  certificate_suffix (Name info) = false ->
  parseCertsToPool_body path pool info = go_ok pool.
Proof.
  intros Hno. unfold parseCertsToPool_body.
  destruct (IsDir info); [reflexivity|].
  rewrite !(Ext_not_certificate _ _ Hno) by tauto. reflexivity.
Qed.

(** C10: an entry of a RootCA or IntermediateCA listing whose name does not
    end in .der, .crt or .cer is passed over by the loop of
    [parseCertsToPool]: the iteration returns the pool it was given, without
    reading or parsing the file and without an error, whatever the file
    system and the parser would answer for it; and the whole loop gives the
    same pool or the same error as on the listing without that entry. *)
Theorem parseCertsToPool_skips (path : string) (info : FileInfo) :
  certificate_suffix (Name info) = false ->
  (forall pool, parseCertsToPool_body path pool info = go_ok pool)
  /\ forall before after pool,
       parseCertsToPool path (before ++ info :: after) pool
       = parseCertsToPool path (before ++ after) pool.
Proof.
  intros Hno. split; [intros pool; apply body_skips, Hno|].
  induction before as [|b before IH]; intros after pool; simpl.
  - rewrite (body_skips _ _ _ Hno). reflexivity.
  - destruct (parseCertsToPool_body path pool b) as [[pool'|e]|msg]; simpl;
      [apply IH|reflexivity..].
Qed.

Lemma readCertificates_halves (dir : string) (roots intermediates : CertPool) :
  readCertificates dir roots intermediates
  = (roots' <- read_RootCA dir roots ;;
     intermediates' <- read_IntermediateCA dir intermediates ;;
     go_ok (roots', intermediates')).
Proof.
  unfold readCertificates, read_RootCA, read_IntermediateCA.
  destruct (ioutil_ReadDir (filepath_Join dir "RootCA")) as [rootFiles|e].
  - destruct (parseCertsToPool _ rootFiles roots) as [[r|e]|msg]; simpl;
      try reflexivity.
    destruct (ioutil_ReadDir (filepath_Join dir "IntermediateCA")) as [fs|e];
      [reflexivity|]. destruct (os_IsNotExist e); reflexivity.
  - destruct (os_IsNotExist e); simpl; [|reflexivity].
    destruct (ioutil_ReadDir (filepath_Join dir "IntermediateCA")) as [fs|e'];
      [reflexivity|]. destruct (os_IsNotExist e'); reflexivity.
Qed.

Lemma go_bind_ok {A} (m : go A) : (a <- m ;; go_ok a) = m.
Proof. destruct m as [[a|e]|msg]; reflexivity. Qed.

Lemma entries_fail (dir : string) (f : FileInfo) (e : error)
    (root : list FileInfo) (pools : CertPool * CertPool) :
  In f root -> IsDir f = true ->
  (forall r i, readCertificates (filepath_Join dir (Name f)) r i = go_err e) ->
  returned (NewEKVerifier_entries dir root pools) = false.
Proof.
  intros Hin Hdir Hfail. revert pools Hin.
  induction root as [|g root IH]; intros pools; simpl; [contradiction|].
  intros [->|Hin].
  - rewrite Hdir; simpl. rewrite Hfail. reflexivity.
  - destruct (IsDir g); simpl; [|apply IH, Hin].
    destruct (readCertificates _ _ _) as [[pools'|e']|msg]; simpl;
      [apply IH, Hin|reflexivity..].
Qed.

Lemma dirs_fail (top : string) (root : list FileInfo) (f : FileInfo)
    (e : error) (certsPath : list string) (pools : CertPool * CertPool) :
  In top certsPath -> ioutil_ReadDir top = Ok root ->
  In f root -> IsDir f = true ->
  (forall r i, readCertificates (filepath_Join top (Name f)) r i = go_err e) ->
  returned (NewEKVerifier_dirs certsPath pools) = false.
Proof.
  intros Hin Hroot Hf Hdir Hfail. revert pools Hin.
  induction certsPath as [|d certsPath IH]; intros pools; simpl; [contradiction|].
  intros [->|Hin].
  - rewrite Hroot.
    pose proof (entries_fail top f e root pools Hf Hdir Hfail) as Hent.
    destruct (NewEKVerifier_entries top root pools) as [[pools'|e']|msg];
      [discriminate|reflexivity..].
  - destruct (ioutil_ReadDir d) as [root'|e']; [|reflexivity].
    destruct (NewEKVerifier_entries d root' pools) as [[pools'|e']|msg]; simpl;
      [apply IH, Hin|reflexivity..].
Qed.

(** C2, as the code has it: for a manufacturer directory, a missing
    IntermediateCA directory is tolerated (the intermediates pool is left as
    it is and only the RootCA half decides), and a missing RootCA directory
    is tolerated in the same way (the roots pool is left as it is and only
    the IntermediateCA half decides). A RootCA directory that cannot be
    listed for any other reason makes [readCertificates] return that error,
    and [NewEKVerifier] then returns no verifier. *)
Theorem readCertificates_missing_directories (dir : string)
    (roots intermediates : CertPool) :
  (forall e,
     ioutil_ReadDir (filepath_Join dir "IntermediateCA") = Err e ->
     os_IsNotExist e = true ->
     readCertificates dir roots intermediates
     = (roots' <- read_RootCA dir roots ;; go_ok (roots', intermediates)))
  /\ (forall e,
       ioutil_ReadDir (filepath_Join dir "RootCA") = Err e ->
       os_IsNotExist e = true ->
       readCertificates dir roots intermediates
       = (intermediates' <- read_IntermediateCA dir intermediates ;;
          go_ok (roots, intermediates')))
  /\ (forall e,
       ioutil_ReadDir (filepath_Join dir "RootCA") = Err e ->
       os_IsNotExist e = false ->
       readCertificates dir roots intermediates = go_err e
       /\ forall certsPath,
            manufacturer_of certsPath dir ->
            returned (NewEKVerifier certsPath) = false).
Proof.
  split; [|split].
  - intros e He Hne. rewrite readCertificates_halves.
    unfold read_IntermediateCA. rewrite He, Hne. reflexivity.
  - intros e He Hne. rewrite readCertificates_halves.
    unfold read_RootCA. rewrite He, Hne. reflexivity.
  - intros e He Hne. split.
    + unfold readCertificates. rewrite He, Hne. reflexivity.
    + intros certsPath (top & root & f & Hin & Hroot & Hf & Hdir & ->).
      unfold NewEKVerifier.
      assert (Hfail : returned (NewEKVerifier_dirs certsPath
                                  (NewCertPool, NewCertPool)) = false).
      { apply (dirs_fail top root f e); try assumption.
        intros r i. unfold readCertificates. rewrite He, Hne. reflexivity. }
      destruct (NewEKVerifier_dirs certsPath (NewCertPool, NewCertPool))
        as [[pools|e']|msg]; [discriminate|reflexivity..].
Qed.


End VerifierFacts.

(** * Properties of the demo server *)

Section ServerFacts.
Import Demo.
Context `{Collaborators}.

Lemma bytes_Equal_refl (a : bytes) : bytes_Equal a a = true.
Proof.
  induction a as [|x a IH]; simpl; [reflexivity|].
  rewrite IH, andb_true_r. apply Byte.byte_dec_lb. reflexivity.
Qed.

Lemma bytes_Equal_eq (a b : bytes) : bytes_Equal a b = true <-> a = b.
Proof.
  split; [|intros ->; apply bytes_Equal_refl].
  revert b; induction a as [|x a IH]; intros [|y b]; simpl; try discriminate.
  - reflexivity.
  - intros [Hxy Hab]%andb_true_iff.
    apply Byte.byte_dec_bl in Hxy. apply IH in Hab. congruence.
Qed.

Lemma bytes_Equal_neq (a b : bytes) : bytes_Equal a b = false <-> a <> b.
Proof.
  rewrite <- bytes_Equal_eq. destruct (bytes_Equal a b); split; congruence.
Qed.

Lemma scan_Some (st : list clientInfo) (pub : bytes) (i : nat) :
  scan st pub = Some i ->
  st !! i = first_with st pub /\ is_Some (first_with st pub)
  /\ forall f, alter f i st = upsert pub f st.
Proof.
  revert i; induction st as [|c st IH]; intros i; simpl; [discriminate|].
  destruct (bytes_Equal (Public (AIK c)) pub).
  - intros [= <-]. simpl. eauto.
  - destruct (scan st pub) as [j|]; simpl; [|discriminate].
    intros [= <-]. destruct (IH j eq_refl) as (Hl & Hs & Ha).
    simpl. repeat split; [assumption..|]. intros f. f_equal. apply Ha.
Qed.

Lemma scan_None (st : list clientInfo) (pub : bytes) :
  scan st pub = None ->
  first_with st pub = None
  /\ forall f (c : clientInfo), alter f (length st) (st ++ [c]) = st ++ [f c].
Proof.
  induction st as [|c st IH]; simpl; [intros _; split; reflexivity|].
  destruct (bytes_Equal (Public (AIK c)) pub); [discriminate|].
  destruct (scan st pub) as [j|]; simpl; [discriminate|].
  intros _. destruct (IH eq_refl) as [Hf Ha].
  split; [assumption|]. intros f c'. f_equal. apply Ha.
Qed.

Lemma upsert_fresh (st : list clientInfo) (pub : bytes) f :
  first_with st pub = None -> upsert pub f st = st ++ [f (clientInfo_new pub)].
Proof.
  induction st as [|c st IH]; simpl; [reflexivity|].
  destruct (bytes_Equal (Public (AIK c)) pub); [discriminate|].
  intros Hn. f_equal. apply IH, Hn.
Qed.

(** What the pointer returned by [s.clientInfo(pub)] reads. *)
Lemma clientInfo_load (s s1 : server) (pub : bytes) (i : nat) :
  server_clientInfo s pub = (s1, i) ->
  load s1 i = Some (default (clientInfo_new pub) (first_with (state s) pub)).
Proof.
  unfold server_clientInfo, load.
  destruct (scan (state s) pub) as [j|] eqn:Hs; intros [= <- <-].
  - apply scan_Some in Hs as (Hl & [c Hc] & _). rewrite Hl, Hc. reflexivity.
  - apply scan_None in Hs as [Hf _]. rewrite Hf. simpl.
    rewrite lookup_app_r by lia. rewrite Nat.sub_diag. reflexivity.
Qed.

(** What a write through that pointer leaves. *)
Lemma clientInfo_store (s s1 : server) (pub : bytes) (i : nat) f :
  server_clientInfo s pub = (s1, i) ->
  state (store s1 i f) = upsert pub f (state s).
Proof.
  unfold server_clientInfo, store.
  destruct (scan (state s) pub) as [j|] eqn:Hs; intros [= <- <-]; simpl.
  - apply scan_Some in Hs as (_ & _ & Ha). apply Ha.
  - apply scan_None in Hs as [Hf Ha]. rewrite Ha, upsert_fresh by assumption.
    reflexivity.
Qed.

(** The lookup alone: at most a zero-valued record is appended. *)
Lemma clientInfo_state (s s1 : server) (pub : bytes) (i : nat) :
  server_clientInfo s pub = (s1, i) ->
  state s1 = upsert pub (fun c => c) (state s).
Proof.
  intros Hc. rewrite <- (clientInfo_store s s1 pub i _ Hc).
  unfold store; simpl. symmetry. apply list_alter_id. reflexivity.
Qed.

Lemma record_of_first_with (s : server) (pub : bytes) :
  record_of s pub
  = Some (default (clientInfo_new pub) (first_with (state s) pub)).
Proof.
  unfold record_of. destruct (server_clientInfo s pub) as [s1 i] eqn:Hc.
  apply (clientInfo_load _ _ _ _ Hc).
Qed.

Lemma first_with_Public (st : list clientInfo) (pub : bytes) (c : clientInfo) :
  first_with st pub = Some c -> Public (AIK c) = pub.
Proof.
  induction st as [|c' st IH]; simpl; [discriminate|].
  destruct (bytes_Equal (Public (AIK c')) pub) eqn:He; [|exact IH].
  intros [= <-]. apply bytes_Equal_eq, He.
Qed.

Lemma record_of_Public (s : server) (pub : bytes) (c : clientInfo) :
  record_of s pub = Some c -> Public (AIK c) = pub.
Proof.
  rewrite record_of_first_with. intros [= <-].
  destruct (first_with (state s) pub) as [c|] eqn:Hf; simpl; [|reflexivity].
  apply (first_with_Public _ _ _ Hf).
Qed.

(** Reading the registry after a write through the pointer for [pub], when
    the write keeps the public blob of the record. *)
Lemma first_with_upsert (st : list clientInfo) (pub pub' : bytes) f :
  (forall c, Public (AIK c) = pub -> Public (AIK (f c)) = pub) ->
  first_with (upsert pub f st) pub'
  = if bytes_Equal pub pub'
    then Some (f (default (clientInfo_new pub) (first_with st pub)))
    else first_with st pub'.
Proof.
  intros Hf. induction st as [|c st IH]; simpl.
  - rewrite (Hf (clientInfo_new pub) eq_refl). reflexivity.
  - destruct (bytes_Equal (Public (AIK c)) pub) eqn:He; simpl.
    + apply bytes_Equal_eq in He. rewrite (Hf c He), He.
      destruct (bytes_Equal pub pub'); reflexivity.
    + destruct (bytes_Equal (Public (AIK c)) pub') eqn:He'.
      * apply bytes_Equal_eq in He'. subst pub'.
        destruct (bytes_Equal pub (Public (AIK c))) eqn:He2; [|reflexivity].
        apply bytes_Equal_eq in He2. subst pub.
        rewrite bytes_Equal_refl in He. discriminate.
      * exact IH.
Qed.

Lemma record_of_store (s s1 : server) (pub pub' : bytes) (i : nat) f :
  server_clientInfo s pub = (s1, i) ->
  (forall c, Public (AIK c) = pub -> Public (AIK (f c)) = pub) ->
  record_of (store s1 i f) pub'
  = if bytes_Equal pub pub' then f <$> record_of s pub else record_of s pub'.
Proof.
  intros Hc Hf. rewrite !record_of_first_with, (clientInfo_store _ _ _ _ _ Hc).
  rewrite (first_with_upsert _ _ _ _ Hf).
  destruct (bytes_Equal pub pub'); reflexivity.
Qed.

Lemma record_of_clientInfo (s s1 : server) (pub pub' : bytes) (i : nat) :
  server_clientInfo s pub = (s1, i) -> record_of s1 pub' = record_of s pub'.
Proof.
  intros Hc.
  assert (Hs : s1 = store s1 i (fun c => c)).
  { destruct s1 as [st]. unfold store; simpl. f_equal. symmetry.
    apply list_alter_id. reflexivity. }
  rewrite Hs, (record_of_store _ _ _ pub' _ _ Hc) by (intros; assumption).
  destruct (bytes_Equal pub pub') eqn:He; [|reflexivity].
  apply bytes_Equal_eq in He. subst pub'.
  destruct (record_of s pub); reflexivity.
Qed.

Lemma clientInfo_load_record (s s1 : server) (pub : bytes) (i : nat) :
  server_clientInfo s pub = (s1, i) -> load s1 i = record_of s pub.
Proof.
  intros Hc. rewrite (clientInfo_load _ _ _ _ Hc), record_of_first_with.
  reflexivity.
Qed.

Lemma set_Activated_Public b c : Public (AIK (set_Activated b c)) = Public (AIK c).
Proof. reflexivity. Qed.

Lemma set_Nonce_Public n c : Public (AIK (set_Nonce n c)) = Public (AIK c).
Proof. reflexivity. Qed.

Lemma set_AttestResults_Public q c :
  Public (AIK (set_AttestResults q c)) = Public (AIK c).
Proof. reflexivity. Qed.

Lemma set_Activated_id (c : clientInfo) :
  Activated c = true -> set_Activated true c = c.
Proof. destruct c; simpl; intros ->; reflexivity. Qed.

Lemma upsert_id (st : list clientInfo) (pub : bytes) f :
  is_Some (first_with st pub) ->
  (forall c, first_with st pub = Some c -> f c = c) ->
  upsert pub f st = st.
Proof.
  induction st as [|c st IH]; simpl; [intros [? [=]]|].
  destruct (bytes_Equal (Public (AIK c)) pub).
  - intros _ Hf. rewrite (Hf c eq_refl). reflexivity.
  - intros Hs Hf. f_equal. apply IH; assumption.
Qed.

(** The two exits of [activate] on a decodable request. *)
Lemma activate_fails (s : server) (rd : requestData) (c : clientInfo) :
  record_of s (Public (rd_AIK rd)) = Some c ->
  (length (ActivationSecret c) =? 0)%nat
  || negb (bytes_Equal (ActivationSecret c) (DecryptedCredential rd)) = true ->
  exists s',
    activate s (JSONBody rd)
    = (s', http_Error "Activation failed" StatusBadRequest)
    /\ forall pub, record_of s' pub = record_of s pub.
Proof.
  intros Hr Hcond. unfold activate; simpl.
  destruct (server_clientInfo s (Public (rd_AIK rd))) as [s1 i] eqn:Hc.
  rewrite (clientInfo_load_record _ _ _ _ Hc), Hr, Hcond.
  exists s1. split; [reflexivity|].
  intros pub. apply (record_of_clientInfo _ _ _ _ _ Hc).
Qed.

Lemma activate_succeeds (s : server) (rd : requestData) (c : clientInfo) :
  record_of s (Public (rd_AIK rd)) = Some c ->
  (length (ActivationSecret c) =? 0)%nat
  || negb (bytes_Equal (ActivationSecret c) (DecryptedCredential rd)) = false ->
  exists s',
    activate s (JSONBody rd) = (s', json_Encode responseData_zero)
    /\ state s' = upsert (Public (rd_AIK rd)) (set_Activated true) (state s)
    /\ forall pub,
         record_of s' pub
         = if bytes_Equal (Public (rd_AIK rd)) pub
           then Some (set_Activated true c) else record_of s pub.
Proof.
  intros Hr Hcond. unfold activate; simpl.
  destruct (server_clientInfo s (Public (rd_AIK rd))) as [s1 i] eqn:Hc.
  rewrite (clientInfo_load_record _ _ _ _ Hc), Hr, Hcond.
  eexists. split; [reflexivity|]. split.
  - apply (clientInfo_store _ _ _ _ _ Hc).
  - intros pub. rewrite (record_of_store _ _ _ pub _ _ Hc), Hr; [reflexivity|].
    intros c'. rewrite set_Activated_Public. tauto.
Qed.

Lemma record_of_is_Some (s : server) (pub : bytes) : is_Some (record_of s pub).
Proof. rewrite record_of_first_with. eauto. Qed.

Lemma server_eq (s s' : server) : state s = state s' -> s = s'.
Proof. destruct s, s'; simpl; intros ->; reflexivity. Qed.

Lemma secret_check_match (secret : bytes) :
  secret <> [] ->
  (length secret =? 0)%nat || negb (bytes_Equal secret secret) = false.
Proof.
  intros Hne. rewrite bytes_Equal_refl.
  destruct secret; [contradiction|reflexivity].
Qed.

Lemma secret_check_mismatch (secret cred : bytes) :
  cred <> secret ->
  (length secret =? 0)%nat || negb (bytes_Equal secret cred) = true.
Proof.
  intros Hne. apply orb_true_iff. right.
  apply negb_true_iff, bytes_Equal_neq. congruence.
Qed.

(** C4: an activation request for a record whose pending activation secret
    is empty (no challenge was issued for that public blob) is answered with
    the error "Activation failed" (status 400), and the registry hands out
    the same record as before for every public blob, so the activated flag
    is unchanged. *)
Theorem activate_no_challenge (s : server) (rd : requestData) (c : clientInfo) :
  record_of s (Public (rd_AIK rd)) = Some c ->
  ActivationSecret c = [] ->
  exists s',
    activate s (JSONBody rd)
    = (s', http_Error "Activation failed" StatusBadRequest)
    /\ (forall pub, record_of s' pub = record_of s pub)
    /\ Activated <$> record_of s' (Public (rd_AIK rd)) = Some (Activated c).
Proof.
  intros Hr Hempty.
  destruct (activate_fails s rd c Hr) as (s' & Ha & Hsame).
  { rewrite Hempty. reflexivity. }
  exists s'. repeat split; [assumption..|].
  rewrite Hsame, Hr. reflexivity.
Qed.

(** C5: an activation request whose claimed secret differs from the stored,
    non-empty pending secret is answered with "Activation failed"; every
    record, with its activated flag and its pending secret, stays as it was;
    and a following request with the stored secret succeeds and sets the
    flag. *)
Theorem activate_wrong_secret (s : server) (rd : requestData) (c : clientInfo) :
  record_of s (Public (rd_AIK rd)) = Some c ->
  ActivationSecret c <> [] ->
  DecryptedCredential rd <> ActivationSecret c ->
  exists s',
    activate s (JSONBody rd)
    = (s', http_Error "Activation failed" StatusBadRequest)
    /\ (forall pub, record_of s' pub = record_of s pub)
    /\ Activated <$> record_of s' (Public (rd_AIK rd)) = Some (Activated c)
    /\ ActivationSecret <$> record_of s' (Public (rd_AIK rd))
       = Some (ActivationSecret c)
    /\ forall rd',
         Public (rd_AIK rd') = Public (rd_AIK rd) ->
         DecryptedCredential rd' = ActivationSecret c ->
         exists s'',
           activate s' (JSONBody rd') = (s'', json_Encode responseData_zero)
           /\ Activated <$> record_of s'' (Public (rd_AIK rd)) = Some true.
Proof.
  intros Hr Hne Hwrong.
  destruct (activate_fails s rd c Hr) as (s' & Ha & Hsame).
  { apply secret_check_mismatch, Hwrong. }
  exists s'. split; [assumption|]. split; [assumption|].
  rewrite Hsame, Hr. do 2 (split; [reflexivity|]).
  intros rd' Hpub Hcred.
  destruct (activate_succeeds s' rd' c) as (s'' & Ha' & _ & Hrec).
  { rewrite Hpub, Hsame. assumption. }
  { rewrite Hcred. apply secret_check_match, Hne. }
  exists s''. split; [assumption|].
  rewrite Hrec, Hpub, bytes_Equal_refl. reflexivity.
Qed.

(** C9: when an activation request succeeds, the record is activated, and
    the same request sent again succeeds again and leaves the server state,
    hence the activated flag, as it is. *)
Theorem activate_idempotent (s s1 : server) (rd : requestData) :
  activate s (JSONBody rd) = (s1, json_Encode responseData_zero) ->
  Activated <$> record_of s1 (Public (rd_AIK rd)) = Some true
  /\ activate s1 (JSONBody rd) = (s1, json_Encode responseData_zero).
Proof.
  intros Hact.
  destruct (record_of_is_Some s (Public (rd_AIK rd))) as [c Hr].
  destruct ((length (ActivationSecret c) =? 0)%nat
            || negb (bytes_Equal (ActivationSecret c) (DecryptedCredential rd)))
    eqn:Hcond.
  { destruct (activate_fails s rd c Hr Hcond) as (s' & Ha & _).
    rewrite Ha in Hact. discriminate. }
  destruct (activate_succeeds s rd c Hr Hcond) as (s' & Ha & Hst & Hrec).
  rewrite Ha in Hact. injection Hact as ->.
  assert (Hr1 : record_of s1 (Public (rd_AIK rd)) = Some (set_Activated true c)).
  { rewrite Hrec, bytes_Equal_refl. reflexivity. }
  split; [rewrite Hr1; reflexivity|].
  destruct (activate_succeeds s1 rd (set_Activated true c) Hr1 Hcond)
    as (s2 & Ha2 & Hst2 & _).
  rewrite Ha2. f_equal. apply server_eq. rewrite Hst2.
  assert (Hfw : first_with (state s1) (Public (rd_AIK rd))
                = Some (set_Activated true
                          (default (clientInfo_new (Public (rd_AIK rd)))
                                   (first_with (state s) (Public (rd_AIK rd)))))).
  { rewrite Hst, first_with_upsert, bytes_Equal_refl; [reflexivity|].
    intros c'. rewrite set_Activated_Public. tauto. }
  apply upsert_id; [rewrite Hfw; eauto|].
  intros c'. rewrite Hfw. intros [= <-]. apply set_Activated_id. reflexivity.
Qed.

(** C6: when a challenge request succeeds, the endorsement key parsed and
    the secret generated, the record for the presented public blob holds the
    request's AIK parameters, that endorsement key, that secret as pending
    activation secret whatever it held before, and activated = false; the
    nonce and the attestation result of the record, and every other record,
    are as before. The handler is one transition of the state. *)
Theorem challenge_sets_record (rnd : bytes) (s s' : server) (rd : requestData)
    (d : responseData) :
  activationGetChallenge rnd s (JSONBody rd) = (s', json_Encode d) ->
  exists ek secret c0,
    EKPublic rd = Returns (Ok ek)
    /\ Generate rnd (challenge_parameters rd ek)
       = Ok (secret, ActivationChallenge d)
    /\ record_of s (Public (rd_AIK rd)) = Some c0
    /\ record_of s' (Public (rd_AIK rd))
       = Some {| AIK := rd_AIK rd; EK := Some ek; ActivationSecret := secret;
                 Activated := false; Nonce := Nonce c0;
                 AttestResults := AttestResults c0 |}
    /\ forall pub, pub <> Public (rd_AIK rd) ->
                   record_of s' pub = record_of s pub.
Proof.
  unfold activationGetChallenge; simpl.
  destruct (EKPublic rd) as [[ek|e]|msg] eqn:Hek; try discriminate.
  fold (challenge_parameters rd ek).
  destruct (Generate rnd (challenge_parameters rd ek)) as [[secret ec]|e]
    eqn:Hgen; try discriminate.
  destruct (server_clientInfo s (Public (rd_AIK rd))) as [s1 i] eqn:Hc.
  intros [= <- <-].
  destruct (record_of_is_Some s (Public (rd_AIK rd))) as [c0 Hr].
  exists ek, secret, c0. repeat split; try assumption.
  - rewrite (record_of_store _ _ _ _ _ _ Hc) by reflexivity.
    rewrite bytes_Equal_refl, Hr. reflexivity.
  - intros pub Hne.
    rewrite (record_of_store _ _ _ pub _ _ Hc) by reflexivity.
    destruct (bytes_Equal (Public (rd_AIK rd)) pub) eqn:He; [|reflexivity].
    apply bytes_Equal_eq in He. congruence.
Qed.

(** The checked failure of a challenge request: a PEM block whose bytes are
    not a PKCS#1 public key is answered with "Internal server error" and the
    state is untouched. *)
Lemma challenge_bad_key (rnd : bytes) (s : server) (rd : requestData)
    (b : bytes) (e : error) :
  pem_Decode (EKPem rd) = Some b ->
  x509_ParsePKCS1PublicKey b = Err e ->
  activationGetChallenge rnd s (JSONBody rd) = (s, internal_server_error).
Proof.
  intros Hpem Hkey. unfold activationGetChallenge, EKPublic; simpl.
  rewrite Hpem, Hkey. reflexivity.
Qed.

(** C7, at the failing input: when the endorsement-key field holds no PEM
    block, [EKPublic] dereferences the nil block. The handler panics: no
    error response is written, although the state is untouched. *)
Theorem challenge_without_pem_block_panics (rnd : bytes) (s : server)
    (rd : requestData) :
  pem_Decode (EKPem rd) = None ->
  activationGetChallenge rnd s (JSONBody rd) = (s, handler_panic nil_dereference).
Proof.
  intros Hpem. unfold activationGetChallenge, EKPublic; simpl.
  rewrite Hpem. reflexivity.
Qed.

(** What [attest] does on a decodable request: the quote is judged against
    the nonce the record holds, and only the attestation result is written. *)
Lemma attest_judged (s : server) (rd : requestData) (c : clientInfo) :
  record_of s (Public (rd_AIK rd)) = Some c ->
  exists s1 resp,
    attest s (JSONBody rd) = (s1, resp)
    /\ match quote_verdict rd (Nonce c) with
       | Ok q =>
           resp = json_Encode responseData_zero
           /\ forall pub,
                record_of s1 pub
                = if bytes_Equal (Public (rd_AIK rd)) pub
                  then Some (set_AttestResults q c) else record_of s pub
       | Err _ =>
           resp = internal_server_error
           /\ forall pub, record_of s1 pub = record_of s pub
       end.
Proof.
  intros Hr. unfold attest; simpl.
  destruct (server_clientInfo s (Public (rd_AIK rd))) as [s1 i] eqn:Hc.
  rewrite (clientInfo_load_record _ _ _ _ Hc), Hr.
  fold (quote_verdict rd (Nonce c)).
  destruct (quote_verdict rd (Nonce c)) as [q|e]; eexists _, _;
    (split; [reflexivity|]); (split; [reflexivity|]); intros pub.
  - rewrite (record_of_store _ _ _ pub _ _ Hc), Hr; [reflexivity|].
    intros c'. rewrite set_AttestResults_Public. tauto.
  - apply (record_of_clientInfo _ _ _ _ _ Hc).
Qed.



End ServerFacts.

(** ** The theorems at concrete requests *)

Section ServerRuns.
Import Demo.

Lemma challenge_sets_record_witness :
  exists ek secret c0,
    @EKPublic toy (request [x01] [x30] [] [] []) = Returns (Ok ek)
    /\ @Generate toy [x0a; x0b]
         (challenge_parameters (request [x01] [x30] [] [] []) ek)
       = Ok (secret, {| Credential := [x0a; x0b]; Secret := [x01] |})
    /\ record_of empty_server [x01] = Some c0
    /\ record_of {| state := [set_challenge (aik_of [x01]) [x0a; x0b]
                               {| rsa_N := 3233; rsa_E := 17 |}
                               (clientInfo_new [x01])] |} [x01]
       = Some {| AIK := aik_of [x01]; EK := Some ek; ActivationSecret := secret;
                 Activated := false; Nonce := Nonce c0;
                 AttestResults := AttestResults c0 |}
    /\ forall pub, pub <> [x01] ->
         record_of {| state := [set_challenge (aik_of [x01]) [x0a; x0b]
                                  {| rsa_N := 3233; rsa_E := 17 |}
                                  (clientInfo_new [x01])] |} pub
         = record_of empty_server pub.
Proof.
  apply (@challenge_sets_record toy [x0a; x0b] empty_server _
           (request [x01] [x30] [] [] [])
           {| ActivationChallenge := {| Credential := [x0a; x0b];
                                        Secret := [x01] |};
              resp_Nonce := [] |}).
  reflexivity.
Defined.

Lemma challenge_without_pem_block_panics_witness :
  @pem_Decode toy (EKPem (request [x01] [] [] [] [])) = None
  /\ @activationGetChallenge toy [x0a] empty_server
       (JSONBody (request [x01] [] [] [] []))
     = (empty_server, handler_panic nil_dereference).
Proof.
  split; [reflexivity|].
  apply (@challenge_without_pem_block_panics toy). reflexivity.
Defined.

Lemma activate_no_challenge_witness :
  record_of empty_server [x01] = Some (clientInfo_new [x01])
  /\ exists s',
       activate empty_server (JSONBody (request [x01] [] [x0a] [] []))
       = (s', http_Error "Activation failed" StatusBadRequest)
       /\ (forall pub, record_of s' pub = record_of empty_server pub)
       /\ Activated <$> record_of s' [x01] = Some false.
Proof.
  split; [reflexivity|].
  apply (activate_no_challenge empty_server (request [x01] [] [x0a] [] [])
           (clientInfo_new [x01])); reflexivity.
Defined.

Lemma activate_wrong_secret_witness :
  exists s',
    activate challenged (JSONBody (request [x01] [] [x0a; x0c] [] []))
    = (s', http_Error "Activation failed" StatusBadRequest)
    /\ (forall pub, record_of s' pub = record_of challenged pub)
    /\ Activated <$> record_of s' [x01] = Some false
    /\ ActivationSecret <$> record_of s' [x01] = Some [x0a; x0b]
    /\ forall rd',
         Public (rd_AIK rd') = [x01] ->
         DecryptedCredential rd' = [x0a; x0b] ->
         exists s'',
           activate s' (JSONBody rd') = (s'', json_Encode responseData_zero)
           /\ Activated <$> record_of s'' [x01] = Some true.
Proof.
  apply (activate_wrong_secret challenged
           (request [x01] [] [x0a; x0c] [] []) challenged_record);
    [reflexivity|discriminate|discriminate].
Defined.

Lemma activate_idempotent_witness :
  Activated <$> record_of activated_once [x01] = Some true
  /\ activate activated_once (JSONBody (request [x01] [] [x0a; x0b] [] []))
     = (activated_once, json_Encode responseData_zero).
Proof.
  apply (activate_idempotent challenged activated_once
           (request [x01] [] [x0a; x0b] [] [])).
  reflexivity.
Defined.



End ServerRuns.

Section VerifierRuns.
Import Verifier.

Lemma parseCertsToPool_skips_witness :
  certificate_suffix "notes.pem" = false
  /\ (forall pool,
        @parseCertsToPool_body toy_x509 toy_fs "/certs/vendor/IntermediateCA"
          pool (file_entry "notes.pem") = go_ok pool)
  /\ forall before after pool,
       @parseCertsToPool toy_x509 toy_fs "/certs/vendor/IntermediateCA"
         (before ++ file_entry "notes.pem" :: after) pool
       = @parseCertsToPool toy_x509 toy_fs "/certs/vendor/IntermediateCA"
           (before ++ after) pool.
Proof.
  split; [reflexivity|].
  apply (@parseCertsToPool_skips toy_x509 toy_fs
           "/certs/vendor/IntermediateCA" (file_entry "notes.pem")).
  reflexivity.
Defined.

(** C2, refuted as stated: the manufacturer directory [/certs/vendor] has no
    RootCA directory, and the trust store is constructed all the same, with
    the intermediate certificate of that manufacturer in it. *)
Lemma missing_RootCA_tolerated :
  @ioutil_ReadDir toy_fs "/certs/vendor/RootCA"
  = Err (no_such_file "/certs/vendor/RootCA")
  /\ os_IsNotExist (no_such_file "/certs/vendor/RootCA") = true
  /\ @readCertificates toy_x509 toy_fs "/certs/vendor" (toy_pool []) (toy_pool [])
     = go_ok (toy_pool [], toy_pool [toy_cert [x30; x82; x01; x0a]])
  /\ @NewEKVerifier toy_x509 toy_fs ["/certs"]
     = go_ok {| roots := toy_pool [toy_cert [x30; x82]];
                intermediates := toy_pool [toy_cert [x30; x82; x01; x0a]] |}.
Proof. repeat split. Qed.

Lemma readCertificates_missing_directories_witness :
  @readCertificates toy_x509 toy_fs "/certs/other" (toy_pool []) (toy_pool [])
  = go_ok (toy_pool [toy_cert [x30; x82]], toy_pool [])
  /\ @readCertificates toy_x509 toy_fs "/certs/vendor" (toy_pool []) (toy_pool [])
     = go_ok (toy_pool [], toy_pool [toy_cert [x30; x82; x01; x0a]])
  /\ @readCertificates toy_x509 toy_fs "/locked/tpm" (toy_pool []) (toy_pool [])
     = go_err (PathError false "open /locked/tpm/RootCA: permission denied")
  /\ returned (@NewEKVerifier toy_x509 toy_fs ["/certs"; "/locked"]) = false.
Proof.
  split; [|split].
  - rewrite (proj1 (@readCertificates_missing_directories toy_x509 toy_fs
                      "/certs/other" (toy_pool []) (toy_pool []))
               (no_such_file "/certs/other/IntermediateCA") eq_refl eq_refl).
    reflexivity.
  - rewrite (proj1 (proj2 (@readCertificates_missing_directories toy_x509 toy_fs
                             "/certs/vendor" (toy_pool []) (toy_pool [])))
               (no_such_file "/certs/vendor/RootCA") eq_refl eq_refl).
    reflexivity.
  - destruct (proj2 (proj2 (@readCertificates_missing_directories toy_x509 toy_fs
                              "/locked/tpm" (toy_pool []) (toy_pool [])))
                (PathError false "open /locked/tpm/RootCA: permission denied")
                eq_refl eq_refl) as [Hread Hnew].
    split; [exact Hread|]. apply Hnew.
    exists "/locked", [dir_entry "tpm"], (dir_entry "tpm").
    split; [right; left; reflexivity|].
    split; [reflexivity|]. split; [left; reflexivity|].
    split; reflexivity.
Defined.



End VerifierRuns.

(** * Runs of the demo server *)

Section ServerRunFacts.
Import Demo.
Context `{Collaborators}.

Lemma read_nonce_length (rnd : bytes) : length (read_nonce rnd) = 32%nat.
Proof.
  unfold read_nonce. rewrite length_take, length_app, length_replicate. lia.
Qed.

Lemma activation_refused_false (c : clientInfo) (cred : bytes) :
  activation_refused c cred = false
  <-> ActivationSecret c <> [] /\ cred = ActivationSecret c.
Proof.
  unfold activation_refused. rewrite orb_false_iff, negb_false_iff.
  rewrite bytes_Equal_eq. split.
  - intros [Hlen Heq]. split; [|congruence].
    destruct (ActivationSecret c); [discriminate|congruence].
  - intros [Hne ->]. split; [|reflexivity].
    destruct (ActivationSecret c); [contradiction|reflexivity].
Qed.

(** Every request either leaves the state as it is or writes through the
    pointer of the record for the blob it names. *)
Lemma handle_writes (rnd : bytes) (s s' : server) (p : rpc) (r : http_Request)
    (resp : response) :
  handle rnd s p r = (s', resp) ->
  s' = s
  \/ exists pub w,
       request_blob r = Some pub
       /\ write_of_request pub
            (default (clientInfo_new pub) (first_with (state s) pub)) w
       /\ state s' = upsert pub (apply_write w) (state s).
Proof.
  destruct r as [e|rd]; [destruct p; intros [= <- _]; left; reflexivity|].
  destruct p; simpl.
  - unfold activationGetChallenge; simpl.
    destruct (EKPublic rd) as [[ek|e]|msg];
      try (intros [= <- _]; left; reflexivity).
    destruct (Generate rnd _) as [[secret ec]|e];
      try (intros [= <- _]; left; reflexivity).
    destruct (server_clientInfo s (Public (rd_AIK rd))) as [s1 i] eqn:Hc.
    intros [= <- _]. right.
    exists (Public (rd_AIK rd)), (WriteChallenge (rd_AIK rd) secret ek).
    split; [reflexivity|]. split; [reflexivity|].
    apply (clientInfo_store _ _ _ _ _ Hc).
  - unfold activate; simpl.
    destruct (server_clientInfo s (Public (rd_AIK rd))) as [s1 i] eqn:Hc.
    rewrite (clientInfo_load _ _ _ _ Hc).
    fold (activation_refused
            (default (clientInfo_new (Public (rd_AIK rd)))
                     (first_with (state s) (Public (rd_AIK rd))))
            (DecryptedCredential rd)).
    destruct (activation_refused _ _) eqn:Hg; intros [= <- _]; right.
    + exists (Public (rd_AIK rd)), WriteNothing.
      split; [reflexivity|]. split; [exact I|].
      apply (clientInfo_state _ _ _ _ Hc).
    + exists (Public (rd_AIK rd)), WriteActivated.
      split; [reflexivity|].
      split; [apply activation_refused_false in Hg; apply Hg|].
      apply (clientInfo_store _ _ _ _ _ Hc).
  - unfold getNonce; simpl.
    destruct (server_clientInfo s (Public (rd_AIK rd))) as [s1 i] eqn:Hc.
    intros [= <- _]. right.
    exists (Public (rd_AIK rd)), (WriteNonce (read_nonce rnd)).
    split; [reflexivity|]. split; [apply read_nonce_length|].
    apply (clientInfo_store _ _ _ _ _ Hc).
  - unfold attest; simpl.
    destruct (server_clientInfo s (Public (rd_AIK rd))) as [s1 i] eqn:Hc.
    rewrite (clientInfo_load _ _ _ _ Hc).
    destruct (VerifyQuote _ _ _ _ _ _) as [q|e]; intros [= <- _]; right.
    + exists (Public (rd_AIK rd)), (WriteAttestResults q).
      split; [reflexivity|]. split; [exact I|].
      apply (clientInfo_store _ _ _ _ _ Hc).
    + exists (Public (rd_AIK rd)), WriteNothing.
      split; [reflexivity|]. split; [exact I|].
      apply (clientInfo_state _ _ _ _ Hc).
Qed.

Lemma write_keeps_blob (pub : bytes) (c0 : clientInfo) (w : write)
    (c : clientInfo) :
  write_of_request pub c0 w -> blob c = pub -> blob (apply_write w c) = pub.
Proof. destruct w; simpl; intros Hw Hb; assumption. Qed.

Lemma first_with_None (st : list clientInfo) (pub : bytes) :
  first_with st pub = None -> pub ∉ (blob <$> st).
Proof.
  induction st as [|c st IH]; simpl; [intros _; apply not_elem_of_nil|].
  destruct (bytes_Equal (Public (AIK c)) pub) eqn:He; [discriminate|].
  intros Hn. apply not_elem_of_cons. split; [|apply IH, Hn].
  apply bytes_Equal_neq in He. unfold blob. congruence.
Qed.

Lemma blobs_upsert (pub : bytes) f (st : list clientInfo) :
  (forall c, blob c = pub -> blob (f c) = pub) ->
  blob <$> upsert pub f st
  = match first_with st pub with
    | Some _ => blob <$> st
    | None => (blob <$> st) ++ [pub]
    end.
Proof.
  intros Hf. induction st as [|c st IH].
  - simpl. rewrite (Hf (clientInfo_new pub) eq_refl). reflexivity.
  - simpl upsert. simpl first_with.
    destruct (bytes_Equal (Public (AIK c)) pub) eqn:He.
    + apply bytes_Equal_eq in He. rewrite !fmap_cons, (Hf c He).
      f_equal. symmetry. exact He.
    + rewrite !fmap_cons, IH. destruct (first_with st pub); reflexivity.
Qed.

Lemma Forall_upsert (P : clientInfo -> Prop) (pub : bytes) f
    (st : list clientInfo) :
  Forall P st ->
  P (f (default (clientInfo_new pub) (first_with st pub))) ->
  Forall P (upsert pub f st).
Proof.
  induction st as [|c st IH]; simpl; intros Hall Hnew.
  - constructor; [assumption|constructor].
  - apply Forall_cons in Hall as [Hc Hall].
    destruct (bytes_Equal (Public (AIK c)) pub); constructor; auto.
Qed.

Lemma Forall_first_with (P : clientInfo -> Prop) (pub : bytes)
    (st : list clientInfo) :
  Forall P st -> P (clientInfo_new pub) ->
  P (default (clientInfo_new pub) (first_with st pub)).
Proof.
  intros Hall Hnew. induction Hall as [|c st Hc Hall IH]; simpl; [assumption|].
  destruct (bytes_Equal (Public (AIK c)) pub); assumption.
Qed.

(** An invariant of records kept by every write holds along every run. *)
Lemma run_Forall (P : clientInfo -> Prop) :
  (forall pub, P (clientInfo_new pub)) ->
  (forall pub c0 w, write_of_request pub c0 w -> P c0 -> P (apply_write w c0)) ->
  forall calls s, Forall P (state s) -> Forall P (state (run s calls)).
Proof.
  intros Hnew Hw. induction calls as [|[[rnd p] r] calls IH]; intros s Hs;
    simpl; [assumption|].
  apply IH. destruct (handle rnd s p r) as [s' resp] eqn:Hh; simpl.
  destruct (handle_writes _ _ _ _ _ _ Hh) as [->|(pub & w & _ & Hwr & ->)];
    [assumption|].
  apply Forall_upsert; [assumption|].
  apply (Hw pub); [assumption|]. apply Forall_first_with; auto.
Qed.

(** X1: however many requests of whatever kind the server has served, no two
    records of its registry carry the same public blob. *)
Theorem registry_blobs_unique (calls : list (bytes * rpc * http_Request)) :
  NoDup (blob <$> state (run empty_server calls)).
Proof.
  assert (Hgen : forall calls s, NoDup (blob <$> state s) ->
                                 NoDup (blob <$> state (run s calls))).
  { clear calls. induction calls as [|[[rnd p] r] calls IH]; intros s Hs;
      simpl; [assumption|].
    apply IH. destruct (handle rnd s p r) as [s' resp] eqn:Hh; simpl.
    destruct (handle_writes _ _ _ _ _ _ Hh) as [->|(pub & w & _ & Hwr & ->)];
      [assumption|].
    rewrite blobs_upsert by (intros c; apply (write_keeps_blob _ _ _ _ Hwr)).
    destruct (first_with (state s) pub) eqn:Hf; [assumption|].
    apply NoDup_app. split; [assumption|]. split; [|apply NoDup_singleton].
    intros b Hb Hb'. apply list_elem_of_singleton in Hb'. subst b.
    apply (first_with_None _ _ Hf), Hb. }
  apply Hgen. simpl. apply NoDup_nil_2.
Qed.

(** X2: along every run from the empty server, a record that is activated
    holds a non-empty pending secret, and a record with a non-empty pending
    secret holds an endorsement key: activation never happens without a
    challenge before it. *)
Theorem activated_only_after_challenge
    (calls : list (bytes * rpc * http_Request)) :
  Forall challenged_before_activated (state (run empty_server calls)).
Proof.
  apply run_Forall; [| |constructor].
  - intros pub. split; [discriminate|]. simpl. congruence.
  - intros pub c0 w Hw [Hact Hek]. destruct w; simpl in *; try (split; assumption).
    + split; [discriminate|]. simpl. intros _. discriminate.
    + split; simpl; [intros _; assumption|assumption].
Qed.

(** X3: along every run from the empty server, every stored nonce is either
    absent or exactly 32 bytes long. *)
Theorem stored_nonce_32_bytes (calls : list (bytes * rpc * http_Request)) :
  Forall nonce_sized (state (run empty_server calls)).
Proof.
  apply run_Forall; [| |constructor].
  - intros pub. left. reflexivity.
  - intros pub c0 w Hw Hn. destruct w; simpl in *; try assumption.
    right. assumption.
Qed.

(** X4: no request removes or reorders records: the list of public blobs
    after any run extends the list before it at the end. *)
Theorem registry_only_grows (s : server)
    (calls : list (bytes * rpc * http_Request)) :
  (blob <$> state s) `prefix_of` (blob <$> state (run s calls)).
Proof.
  revert s. induction calls as [|[[rnd p] r] calls IH]; intros s; simpl;
    [reflexivity|].
  etransitivity; [|apply IH].
  destruct (handle rnd s p r) as [s' resp] eqn:Hh; simpl.
  destruct (handle_writes _ _ _ _ _ _ Hh) as [->|(pub & w & _ & Hwr & ->)];
    [reflexivity|].
  rewrite blobs_upsert by (intros c; apply (write_keeps_blob _ _ _ _ Hwr)).
  destruct (first_with (state s) pub); [reflexivity|].
  apply prefix_app_r. reflexivity.
Qed.

(** X5: a request leaves alone the record of every public blob other than
    the one it names; a request whose body does not decode names none. *)
Theorem other_records_untouched (rnd : bytes) (s s' : server) (p : rpc)
    (r : http_Request) (resp : response) (pub : bytes) :
  handle rnd s p r = (s', resp) ->
  request_blob r <> Some pub ->
  record_of s' pub = record_of s pub.
Proof.
  intros Hh Hne.
  destruct (handle_writes _ _ _ _ _ _ Hh) as [->|(pub0 & w & Hr & Hwr & Hst)];
    [reflexivity|].
  rewrite !record_of_first_with, Hst.
  rewrite first_with_upsert
    by (intros c; apply (write_keeps_blob _ _ _ _ Hwr)).
  destruct (bytes_Equal pub0 pub) eqn:He; [|reflexivity].
  apply bytes_Equal_eq in He. congruence.
Qed.

Lemma scan_app_new (st : list clientInfo) (pub : bytes) :
  scan st pub = None ->
  scan (st ++ [clientInfo_new pub]) pub = Some (length st).
Proof.
  induction st as [|c st IH]; simpl.
  - intros _. rewrite bytes_Equal_refl. reflexivity.
  - destruct (bytes_Equal (Public (AIK c)) pub); [discriminate|].
    destruct (scan st pub); [discriminate|]. intros _.
    rewrite (IH eq_refl). reflexivity.
Qed.

(** X6: the registry lookup is get-or-create by exact blob: the pointer it
    returns reads a record whose public blob is the requested one; either
    the state is unchanged, or no record had that blob and one zero-valued
    record for it was appended; and looking the blob up again returns the
    same pointer and creates nothing. *)
Theorem clientInfo_get_or_create (s s1 : server) (pub : bytes) (i : nat) :
  server_clientInfo s pub = (s1, i) ->
  (exists c, load s1 i = Some c /\ blob c = pub)
  /\ (s1 = s
      \/ ((pub ∉ (blob <$> state s))
          /\ state s1 = state s ++ [clientInfo_new pub]
          /\ load s1 i = Some (clientInfo_new pub)))
  /\ server_clientInfo s1 pub = (s1, i).
Proof.
  intros Hc. split; [|split].
  - rewrite (clientInfo_load _ _ _ _ Hc). eexists. split; [reflexivity|].
    destruct (first_with (state s) pub) as [c|] eqn:Hf; simpl; [|reflexivity].
    apply (first_with_Public _ _ _ Hf).
  - revert Hc. unfold server_clientInfo.
    destruct (scan (state s) pub) as [j|] eqn:Hs; intros [= <- <-];
      [left; reflexivity|right].
    apply scan_None in Hs as [Hf _].
    split; [apply first_with_None, Hf|]. split; [reflexivity|].
    unfold load; simpl. rewrite lookup_app_r by lia.
    rewrite Nat.sub_diag. reflexivity.
  - revert Hc. unfold server_clientInfo.
    destruct (scan (state s) pub) as [j|] eqn:Hs; intros [= <- <-].
    + rewrite Hs. reflexivity.
    + simpl. rewrite (scan_app_new _ _ Hs). reflexivity.
Qed.

(** X7: a challenge request that is not answered with a challenge (the body
    or the endorsement key does not decode, the key does not parse, the
    challenge cannot be generated, or the handler panics) leaves the server
    state exactly as it was: not even a record is created. *)
Theorem failed_challenge_keeps_state (rnd : bytes) (s s' : server)
    (r : http_Request) (resp : response) :
  activationGetChallenge rnd s r = (s', resp) ->
  (forall d, resp <> json_Encode d) ->
  s' = s.
Proof.
  unfold activationGetChallenge. destruct (unmarshalRequestBody r) as [rd|e];
    [|intros [= <- _] _; reflexivity].
  destruct (EKPublic rd) as [[ek|e]|msg];
    try (intros [= <- _] _; reflexivity).
  destruct (Generate rnd _) as [[secret ec]|e];
    try (intros [= <- _] _; reflexivity).
  destruct (server_clientInfo s (Public (rd_AIK rd))) as [s1 i].
  intros [= _ <-] Hno. exfalso. eapply Hno. reflexivity.
Qed.

Lemma activate_accepts (s : server) (rd : requestData) (c : clientInfo) :
  record_of s (Public (rd_AIK rd)) = Some c ->
  (snd (activate s (JSONBody rd)) = json_Encode responseData_zero
   <-> ActivationSecret c <> [] /\ DecryptedCredential rd = ActivationSecret c)
  /\ (snd (activate s (JSONBody rd)) = json_Encode responseData_zero
      \/ snd (activate s (JSONBody rd))
         = http_Error "Activation failed" StatusBadRequest).
Proof.
  intros Hr.
  destruct (activation_refused c (DecryptedCredential rd)) eqn:Hg.
  - destruct (activate_fails s rd c Hr Hg) as (s' & -> & _). simpl.
    split; [|right; reflexivity]. split; [discriminate|].
    intros Hok. apply activation_refused_false in Hok. congruence.
  - destruct (activate_succeeds s rd c Hr Hg) as (s' & -> & _). simpl.
    split; [|left; reflexivity]. split; [|reflexivity].
    intros _. apply activation_refused_false, Hg.
Qed.

(** X8: an activation request is accepted exactly when the record for its
    public blob holds a non-empty pending secret and the claimed secret
    equals it; every other decodable request is answered with
    "Activation failed". *)
Theorem activate_accepts_iff (s : server) (rd : requestData) (c : clientInfo) :
  record_of s (Public (rd_AIK rd)) = Some c ->
  (snd (activate s (JSONBody rd)) = json_Encode responseData_zero
   <-> ActivationSecret c <> [] /\ DecryptedCredential rd = ActivationSecret c)
  /\ (snd (activate s (JSONBody rd)) = json_Encode responseData_zero
      \/ snd (activate s (JSONBody rd))
         = http_Error "Activation failed" StatusBadRequest).
Proof.
  intros Hr.
  destruct (activation_refused c (DecryptedCredential rd)) eqn:Hg.
  - destruct (activate_fails s rd c Hr Hg) as (s' & -> & _). simpl.
    split; [|right; reflexivity]. split; [discriminate|].
    intros Hok. apply activation_refused_false in Hok. congruence.
  - destruct (activate_succeeds s rd c Hr Hg) as (s' & -> & _). simpl.
    split; [|left; reflexivity]. split; [|reflexivity].
    intros _. apply activation_refused_false, Hg.
Qed.

Lemma challenge_record (rnd : bytes) (s s' : server) (rd : requestData)
    (d : responseData) :
  activationGetChallenge rnd s (JSONBody rd) = (s', json_Encode d) ->
  exists ek secret c0,
    EKPublic rd = Returns (Ok ek)
    /\ Generate rnd (challenge_parameters rd ek)
       = Ok (secret, ActivationChallenge d)
    /\ record_of s (Public (rd_AIK rd)) = Some c0
    /\ record_of s' (Public (rd_AIK rd))
       = Some (set_challenge (rd_AIK rd) secret ek c0).
Proof.
  unfold activationGetChallenge; simpl.
  destruct (EKPublic rd) as [[ek|e]|msg] eqn:Hek; try discriminate.
  fold (challenge_parameters rd ek).
  destruct (Generate rnd (challenge_parameters rd ek)) as [[secret ec]|e]
    eqn:Hgen; try discriminate.
  destruct (server_clientInfo s (Public (rd_AIK rd))) as [s1 i] eqn:Hc.
  intros [= <- <-].
  destruct (record_of_is_Some s (Public (rd_AIK rd))) as [c0 Hr].
  exists ek, secret, c0. repeat split; try assumption.
  rewrite (record_of_store _ _ _ _ _ _ Hc) by reflexivity.
  rewrite bytes_Equal_refl, Hr. reflexivity.
Qed.

(** X9: after a challenge was issued for a public blob, an activation
    request for that blob is accepted exactly when it claims the secret
    generated for that challenge and that secret is not empty; whatever
    secret was pending before no longer counts. *)
Theorem challenge_then_activate (rnd : bytes) (s s1 : server)
    (rd rd2 : requestData) (d : responseData) :
  activationGetChallenge rnd s (JSONBody rd) = (s1, json_Encode d) ->
  Public (rd_AIK rd2) = Public (rd_AIK rd) ->
  exists ek secret,
    Generate rnd (challenge_parameters rd ek)
    = Ok (secret, ActivationChallenge d)
    /\ (snd (activate s1 (JSONBody rd2)) = json_Encode responseData_zero
        <-> secret <> [] /\ DecryptedCredential rd2 = secret).
Proof.
  intros Hch Hpub.
  destruct (challenge_record _ _ _ _ _ Hch)
    as (ek & secret & c0 & _ & Hgen & _ & Hr1).
  exists ek, secret. split; [assumption|].
  rewrite <- Hpub in Hr1.
  apply (proj1 (activate_accepts s1 rd2 _ Hr1)).
Qed.

Lemma getNonce_spec (n : bytes) (s : server) (rd : requestData) :
  exists s',
    getNonce n s (JSONBody rd)
    = (s', json_Encode {| ActivationChallenge := zero_EncryptedCredential;
                          resp_Nonce := n |})
    /\ record_of s' (Public (rd_AIK rd))
       = set_Nonce n <$> record_of s (Public (rd_AIK rd))
    /\ forall pub, pub <> Public (rd_AIK rd) ->
                   record_of s' pub = record_of s pub.
Proof.
  unfold getNonce; simpl.
  destruct (server_clientInfo s (Public (rd_AIK rd))) as [s1 i] eqn:Hc.
  eexists. split; [reflexivity|]. split.
  - rewrite (record_of_store _ _ _ _ _ _ Hc), bytes_Equal_refl; [reflexivity|].
    intros c'. rewrite set_Nonce_Public. tauto.
  - intros pub Hne. rewrite (record_of_store _ _ _ pub _ _ Hc).
    + destruct (bytes_Equal (Public (rd_AIK rd)) pub) eqn:He; [|reflexivity].
      apply bytes_Equal_eq in He. congruence.
    + intros c'. rewrite set_Nonce_Public. tauto.
Qed.

(** X10: a nonce request with a decodable body always succeeds: the answer
    carries the fresh nonce, the record for the named blob holds that nonce
    in place of any earlier one with its other fields as they were, and the
    records of other blobs are untouched. *)
Theorem getNonce_issues (n : bytes) (s : server) (rd : requestData) :
  exists s',
    getNonce n s (JSONBody rd)
    = (s', json_Encode {| ActivationChallenge := zero_EncryptedCredential;
                          resp_Nonce := n |})
    /\ record_of s' (Public (rd_AIK rd))
       = set_Nonce n <$> record_of s (Public (rd_AIK rd))
    /\ forall pub, pub <> Public (rd_AIK rd) ->
                   record_of s' pub = record_of s pub.
Proof.
  unfold getNonce; simpl.
  destruct (server_clientInfo s (Public (rd_AIK rd))) as [s1 i] eqn:Hc.
  eexists. split; [reflexivity|]. split.
  - rewrite (record_of_store _ _ _ _ _ _ Hc), bytes_Equal_refl; [reflexivity|].
    intros c'. rewrite set_Nonce_Public. tauto.
  - intros pub Hne. rewrite (record_of_store _ _ _ pub _ _ Hc).
    + destruct (bytes_Equal (Public (rd_AIK rd)) pub) eqn:He; [|reflexivity].
      apply bytes_Equal_eq in He. congruence.
    + intros c'. rewrite set_Nonce_Public. tauto.
Qed.

Lemma challenge_succeeds (rnd : bytes) (s : server) (rd : requestData)
    (ek : rsa_PublicKey) (secret : bytes) (ec : EncryptedCredential)
    (c0 : clientInfo) :
  EKPublic rd = Returns (Ok ek) ->
  Generate rnd (challenge_parameters rd ek) = Ok (secret, ec) ->
  record_of s (Public (rd_AIK rd)) = Some c0 ->
  exists s',
    activationGetChallenge rnd s (JSONBody rd)
    = (s', json_Encode {| ActivationChallenge := ec; resp_Nonce := [] |})
    /\ record_of s' (Public (rd_AIK rd))
       = Some (set_challenge (rd_AIK rd) secret ek c0).
Proof.
  intros Hek Hgen Hr. unfold activationGetChallenge; simpl. rewrite Hek.
  fold (challenge_parameters rd ek). rewrite Hgen.
  destruct (server_clientInfo s (Public (rd_AIK rd))) as [s1 i] eqn:Hc.
  eexists. split; [reflexivity|].
  rewrite (record_of_store _ _ _ _ _ _ Hc) by reflexivity.
  rewrite bytes_Equal_refl, Hr. reflexivity.
Qed.

(** X11: an attestation request is judged whether or not the record was
    ever activated: the quote goes to [VerifyQuote] with the nonce the record
    holds. A verdict, valid or not, is answered with 200 and replaces the
    stored attestation result, nothing else; an error of [VerifyQuote] is
    answered with "Internal server error" and the record, with the result
    stored before, stays as it was. *)
Theorem attest_verdict (s : server) (rd : requestData) (c : clientInfo) :
  record_of s (Public (rd_AIK rd)) = Some c ->
  exists s1,
    match quote_verdict rd (Nonce c) with
    | Ok q =>
        attest s (JSONBody rd) = (s1, json_Encode responseData_zero)
        /\ record_of s1 (Public (rd_AIK rd)) = Some (set_AttestResults q c)
    | Err _ =>
        attest s (JSONBody rd) = (s1, internal_server_error)
        /\ record_of s1 (Public (rd_AIK rd)) = Some c
    end.
Proof.
  intros Hr. destruct (attest_judged s rd c Hr) as (s1 & resp & Ha & Hv).
  exists s1. destruct (quote_verdict rd (Nonce c)) as [q|e];
    destruct Hv as [-> Hrec]; (split; [assumption|]); rewrite Hrec.
  - rewrite bytes_Equal_refl. reflexivity.
  - assumption.
Qed.

(** X12: an attestation request for a public blob the server has never seen
    is not rejected: the quote is judged against the empty nonce, and a
    record for the blob is appended that holds the verdict, with no
    endorsement key, no pending secret and activated = false. *)
Theorem attest_unknown_blob (s : server) (rd : requestData)
    (q : QuoteVerificationResults) :
  Public (rd_AIK rd) ∉ (blob <$> state s) ->
  quote_verdict rd [] = Ok q ->
  attest s (JSONBody rd)
  = ({| state := state s
                 ++ [set_AttestResults q (clientInfo_new (Public (rd_AIK rd)))] |},
     json_Encode responseData_zero).
Proof.
  intros Hnew Hq. unfold attest; simpl.
  assert (Hs : scan (state s) (Public (rd_AIK rd)) = None).
  { destruct (scan (state s) (Public (rd_AIK rd))) as [j|] eqn:Hs;
      [|reflexivity].
    exfalso. apply Hnew. apply scan_Some in Hs as (Hl & [c Hc] & _).
    rewrite Hc in Hl. apply list_elem_of_fmap. exists c. split.
    - symmetry. apply (first_with_Public _ _ _ Hc).
    - apply list_elem_of_lookup. eauto. }
  unfold server_clientInfo. rewrite Hs.
  unfold load; simpl. rewrite lookup_app_r by lia. rewrite Nat.sub_diag. simpl.
  fold (quote_verdict rd []). rewrite Hq. f_equal.
  unfold store; simpl. f_equal.
  apply scan_None in Hs as [_ Ha]. apply Ha.
Qed.

End ServerRunFacts.

(** * More on loading the certificate pools *)

Section PoolFacts.
Import Verifier.
Context `{X509} `{FileSystem}.

Lemma Ext_loop_S (path : string) (i : nat) :
  Ext_loop path (S i)
  = match String.get i path with
    | None => ""
    | Some c =>
        if os_IsPathSeparator c then ""
        else if Ascii.eqb c "."%char
             then String.substring i (String.length path - i) path
             else Ext_loop path i
    end.
Proof. reflexivity. Qed.

Lemma Ext_loop_suffix (stem ext : string) (a b c : ascii) :
  ext = String "."%char (String a (String b (String c EmptyString))) ->
  os_IsPathSeparator a = false -> Ascii.eqb a "."%char = false ->
  os_IsPathSeparator b = false -> Ascii.eqb b "."%char = false ->
  os_IsPathSeparator c = false -> Ascii.eqb c "."%char = false ->
  filepath_Ext (stem ++ ext)%string = ext.
Proof.
  intros Hext Ha Ha' Hb Hb' Hc Hc'. unfold filepath_Ext.
  assert (Hlen : String.length ext = 4) by (rewrite Hext; reflexivity).
  assert (Hg3 : String.get 3 ext = Some c) by (rewrite Hext; reflexivity).
  assert (Hg2 : String.get 2 ext = Some b) by (rewrite Hext; reflexivity).
  assert (Hg1 : String.get 1 ext = Some a) by (rewrite Hext; reflexivity).
  assert (Hg0 : String.get 0 ext = Some "."%char)
    by (rewrite Hext; reflexivity).
  rewrite length_append, Hlen.
  replace (String.length stem + 4) with (S (3 + String.length stem)) by lia.
  rewrite Ext_loop_S, <- (String.append_correct2 stem ext 3), Hg3, Hc, Hc'.
  change (3 + String.length stem) with (S (2 + String.length stem)).
  rewrite Ext_loop_S, <- (String.append_correct2 stem ext 2), Hg2, Hb, Hb'.
  change (2 + String.length stem) with (S (1 + String.length stem)).
  rewrite Ext_loop_S, <- (String.append_correct2 stem ext 1), Hg1, Ha, Ha'.
  change (1 + String.length stem) with (S (0 + String.length stem)).
  rewrite Ext_loop_S, <- (String.append_correct2 stem ext 0), Hg0.
  change (os_IsPathSeparator "."%char) with false.
  change (Ascii.eqb "."%char "."%char) with true. cbv iota.
  rewrite length_append, Hlen.
  replace (String.length stem + 4 - (0 + String.length stem)) with 4 by lia.
  rewrite <- Hlen. apply substring_append.
Qed.

(** [filepath.Ext] of a name that ends in .der, .crt or .cer is that
    ending, whatever comes before it. *)
Lemma Ext_certificate (name ext : string) :
  ext = ".der" \/ ext = ".crt" \/ ext = ".cer" ->
  strings_HasSuffix name ext = true -> filepath_Ext name = ext.
Proof.
  intros Hext [stem ->]%strings_HasSuffix_spec.
  destruct Hext as [->|[->| ->]];
    eapply Ext_loop_suffix; reflexivity.
Qed.

Lemma loop_passes_over (path : string) (info : FileInfo) :
  (forall pool, parseCertsToPool_body path pool info = go_ok pool) ->
  forall before after pool,
    parseCertsToPool path (before ++ info :: after) pool
    = parseCertsToPool path (before ++ after) pool.
Proof.
  intros Hskip. induction before as [|b before IH]; intros after pool; simpl.
  - rewrite Hskip. reflexivity.
  - destruct (parseCertsToPool_body path pool b) as [[pool'|e]|msg]; simpl;
      [apply IH|reflexivity..].
Qed.

(** X13: a directory entry inside a RootCA or IntermediateCA listing is
    passed over whatever its name: the loader does not descend into
    subdirectories, and the pool or error is the same as without the
    entry. *)
Theorem parseCertsToPool_skips_directories (path : string) (info : FileInfo) :
  IsDir info = true ->
  (forall pool, parseCertsToPool_body path pool info = go_ok pool)
  /\ forall before after pool,
       parseCertsToPool path (before ++ info :: after) pool
       = parseCertsToPool path (before ++ after) pool.
Proof.
  intros Hdir.
  assert (Hskip : forall pool, parseCertsToPool_body path pool info = go_ok pool).
  { intros pool. unfold parseCertsToPool_body. rewrite Hdir. reflexivity. }
  split; [exact Hskip|apply loop_passes_over, Hskip].
Qed.

(** X14: loading a listing is loading its first part and then, from the
    pool that gives, the rest; when the first part fails or panics, nothing
    of the rest is read and that error or panic is the result. *)
Theorem parseCertsToPool_app (path : string) (files rest : list FileInfo)
    (pool : CertPool) :
  parseCertsToPool path (files ++ rest) pool
  = (pool' <- parseCertsToPool path files pool ;;
     parseCertsToPool path rest pool')
  /\ (returned (parseCertsToPool path files pool) = false ->
      parseCertsToPool path (files ++ rest) pool
      = parseCertsToPool path files pool).
Proof.
  assert (Happ : forall pool,
             parseCertsToPool path (files ++ rest) pool
             = (pool' <- parseCertsToPool path files pool ;;
                parseCertsToPool path rest pool')).
  { induction files as [|f files IH]; intros pool0; simpl; [reflexivity|].
    destruct (parseCertsToPool_body path pool0 f) as [[pool'|e]|msg]; simpl;
      [apply IH|reflexivity..]. }
  split; [apply Happ|]. rewrite Happ.
  destruct (parseCertsToPool path files pool) as [[pool'|e]|msg]; simpl;
    [discriminate|reflexivity..].
Qed.

(** X15: a file whose name ends in .der and that can be read is added to
    the pool when it parses cleanly and also when it parses with a
    non-fatal error; a fatal parse error ends the loading with the error
    "<name> parse failed: <error>". *)
Theorem der_file (path : string) (pool : CertPool) (info : FileInfo)
    (d : bytes) :
  IsDir info = false ->
  strings_HasSuffix (Name info) ".der" = true ->
  ioutil_ReadFile (filepath_Join path (Name info)) = Ok d ->
  (forall c, ParseCertificate d = (Some c, None) ->
             parseCertsToPool_body path pool info = go_ok (AddCert pool c))
  /\ (forall c e, ParseCertificate d = (Some c, Some e) ->
                 x509_IsFatal e = false ->
                 parseCertsToPool_body path pool info = go_ok (AddCert pool c))
  /\ (forall c e, ParseCertificate d = (c, Some e) ->
                 x509_IsFatal e = true ->
                 parseCertsToPool_body path pool info
                 = go_err (ErrorString (Name info ++ " parse failed: "
                                        ++ Error e)%string)).
Proof.
  intros Hdir Hext Hread. unfold parseCertsToPool_body.
  rewrite Hdir, (Ext_certificate _ ".der") by (assumption || tauto).
  simpl. rewrite Hread.
  split; [|split].
  - intros c ->. reflexivity.
  - intros c e -> Hf. simpl. rewrite Hf. reflexivity.
  - intros c e -> Hf. simpl. rewrite Hf. reflexivity.
Qed.

(** X16: a readable file whose name ends in .crt or .cer is added when it
    parses cleanly as DER; when it parses with a non-fatal error it is
    dropped without an error and the pool is unchanged (a .der file would
    be added); on a fatal DER parse error the file is tried as PEM, and the
    loading fails with "<name> parse failed: <error>" only if no PEM
    certificate was appended. *)
Theorem crt_cer_file (path : string) (pool : CertPool) (info : FileInfo)
    (d : bytes) :
  IsDir info = false ->
  strings_HasSuffix (Name info) ".crt" = true
  \/ strings_HasSuffix (Name info) ".cer" = true ->
  ioutil_ReadFile (filepath_Join path (Name info)) = Ok d ->
  (forall c, ParseCertificate d = (Some c, None) ->
             parseCertsToPool_body path pool info = go_ok (AddCert pool c))
  /\ (forall c e, ParseCertificate d = (c, Some e) ->
                 x509_IsFatal e = false ->
                 parseCertsToPool_body path pool info = go_ok pool)
  /\ (forall c e, ParseCertificate d = (c, Some e) ->
                 x509_IsFatal e = true ->
                 parseCertsToPool_body path pool info
                 = if snd (AppendCertsFromPEM pool d)
                   then go_ok (fst (AppendCertsFromPEM pool d))
                   else go_err (ErrorString (Name info ++ " parse failed: "
                                             ++ Error e)%string)).
Proof.
  intros Hdir Hext Hread. unfold parseCertsToPool_body. rewrite Hdir.
  assert (Hcase : String.eqb (filepath_Ext (Name info)) ".der" = false
                  /\ String.eqb (filepath_Ext (Name info)) ".crt"
                     || String.eqb (filepath_Ext (Name info)) ".cer" = true).
  { destruct Hext as [Hext|Hext];
      [rewrite (Ext_certificate _ ".crt") by (assumption || tauto)
      |rewrite (Ext_certificate _ ".cer") by (assumption || tauto)];
      split; reflexivity. }
  destruct Hcase as [-> ->]. rewrite Hread.
  split; [|split].
  - intros c ->. reflexivity.
  - intros c e -> Hf. simpl. rewrite Hf. reflexivity.
  - intros c e -> Hf. simpl. rewrite Hf.
    destruct (AppendCertsFromPEM pool d) as [pool' [|]]; reflexivity.
Qed.

(** X17: a directory of [certsPath] that cannot be listed, for whatever
    reason and also when it simply does not exist, makes construction
    return no verifier; when it is the first directory, the listing error
    is returned as it is. *)
Theorem NewEKVerifier_unlistable (certsPath : list string) (dir : string)
    (e : error) :
  ioutil_ReadDir dir = Err e ->
  (In dir certsPath -> returned (NewEKVerifier certsPath) = false)
  /\ NewEKVerifier (dir :: certsPath) = go_err e.
Proof.
  intros Hread. split.
  - intros Hin. unfold NewEKVerifier.
    assert (Hd : forall pools,
               returned (NewEKVerifier_dirs certsPath pools) = false).
    { induction certsPath as [|d certsPath IH]; intros pools; simpl;
        [contradiction|].
      destruct Hin as [->|Hin]; [rewrite Hread; reflexivity|].
      destruct (ioutil_ReadDir d) as [root|e']; [|reflexivity].
      destruct (NewEKVerifier_entries d root pools) as [[pools'|e']|msg];
        simpl; [apply IH, Hin|reflexivity..]. }
    specialize (Hd (NewCertPool, NewCertPool)).
    destruct (NewEKVerifier_dirs certsPath (NewCertPool, NewCertPool))
      as [[pools|e']|msg]; [discriminate|reflexivity..].
  - unfold NewEKVerifier. simpl. rewrite Hread. reflexivity.
Qed.

(** X18: a plain file directly inside a directory of [certsPath] is never
    looked into: the pools or error are the same as without the entry. *)
Theorem NewEKVerifier_skips_files (dir : string) (f : FileInfo) :
  IsDir f = false ->
  forall before after pools,
    NewEKVerifier_entries dir (before ++ f :: after) pools
    = NewEKVerifier_entries dir (before ++ after) pools.
Proof.
  intros Hfile. induction before as [|b before IH]; intros after pools; simpl.
  - rewrite Hfile. reflexivity.
  - destruct (IsDir b); simpl; [|apply IH].
    destruct (readCertificates _ _ _) as [[pools'|e]|msg]; simpl;
      [apply IH|reflexivity..].
Qed.

(** X19: the two pools do not mix: the roots that [readCertificates]
    returns are the same whatever intermediates pool it is given, and the
    intermediates it returns are the same whatever roots pool it is
    given. *)
Theorem readCertificates_pools_apart (dir : string)
    (r1 r2 i1 i2 r1' i1' r2' i2' : CertPool) :
  readCertificates dir r1 i1 = go_ok (r1', i1') ->
  readCertificates dir r2 i2 = go_ok (r2', i2') ->
  (r1 = r2 -> r1' = r2') /\ (i1 = i2 -> i1' = i2').
Proof.
  rewrite !readCertificates_halves. intros H1 H2.
  destruct (read_RootCA dir r1) as [[a1|?]|?] eqn:Ha1; try discriminate.
  destruct (read_RootCA dir r2) as [[a2|?]|?] eqn:Ha2; try discriminate.
  simpl in H1, H2.
  destruct (read_IntermediateCA dir i1) as [[b1|?]|?] eqn:Hb1; try discriminate.
  destruct (read_IntermediateCA dir i2) as [[b2|?]|?] eqn:Hb2; try discriminate.
  simpl in H1, H2. injection H1 as <- <-. injection H2 as <- <-.
  split; intros ->; congruence.
Qed.

(** X20: [VerifyEKCert] returns an error exactly when the parser hands back
    a certificate together with a fatal error; when the parser hands back
    no certificate, the call panics on the nil certificate instead of
    returning the parse error. *)
Theorem VerifyEKCert_error (v : EKVerifier) (certBytes : bytes) :
  (forall e,
     VerifyEKCert v certBytes = go_err e
     <-> exists c, ParseCertificate certBytes = (Some c, Some e)
                   /\ x509_IsFatal e = true)
  /\ (forall err, ParseCertificate certBytes = (None, err) ->
                  VerifyEKCert v certBytes = Panics nil_dereference).
Proof.
  unfold VerifyEKCert. split.
  - intros e. destruct (ParseCertificate certBytes) as [[c|] err].
    + destruct err as [e'|]; simpl.
      * destruct (x509_IsFatal e') eqn:Hf.
        -- split.
           ++ intros [= <-]. exists c. split; [reflexivity|assumption].
           ++ intros (c' & [= <- <-] & _). reflexivity.
        -- split.
           ++ destruct (Verify _ _) as [chains [e''|]]; [discriminate|].
              destruct chains; discriminate.
           ++ intros (c' & [= <- <-] & Hf'). congruence.
      * split.
        -- destruct (Verify _ _) as [chains [e''|]]; [discriminate|].
           destruct chains; discriminate.
        -- intros (c' & [=] & _).
    + split; [discriminate|]. intros (c' & [=] & _).
  - intros err ->. reflexivity.
Qed.

(** X21: verification is lenient towards the parsed certificate: two
    inputs whose certificates differ only in their unhandled critical
    extensions, and whose parse errors, if any, are not fatal, get the same
    result. *)
Theorem VerifyEKCert_lenient (v : EKVerifier) (b1 b2 : bytes)
    (c1 c2 : Certificate) (e1 e2 : option error) :
  ParseCertificate b1 = (Some c1, e1) ->
  ParseCertificate b2 = (Some c2, e2) ->
  fatal e1 = false -> fatal e2 = false ->
  clear_UnhandledCriticalExtensions c1 = clear_UnhandledCriticalExtensions c2 ->
  VerifyEKCert v b1 = VerifyEKCert v b2.
Proof.
  intros H1 H2 Hf1 Hf2 Hc. unfold VerifyEKCert.
  rewrite H1, H2, Hf1, Hf2, Hc. reflexivity.
Qed.

End PoolFacts.

(** * The demo client, alone and against the server *)

Section ClientFacts.
Import Demo Client.
Context `{Collaborators} `{TPM}.


(** X23: the key the client sends is the key the server reads: when, for
    the RSA key [pk] the client picked, PEM decoding undoes the PEM encoding
    and PKCS#1 parsing undoes the PKCS#1 marshalling, [rsaEKPEM] returns the
    PEM bytes and [EKPublic] on the server, given those bytes, returns
    [pk]. *)
Theorem EK_round_trip (eks : list PlatformEK) (pk : rsa_PublicKey)
    (pem : bytes) :
  tpm_EKs = Ok eks ->
  rsaEKPEM_loop eks = Returns (Some pk) ->
  pem_Encode "RSA PUBLIC KEY" (x509_MarshalPKCS1PublicKey pk) = Ok pem ->
  pem_Decode pem = Some (x509_MarshalPKCS1PublicKey pk) ->
  x509_ParsePKCS1PublicKey (x509_MarshalPKCS1PublicKey pk) = Ok pk ->
  rsaEKPEM = Returns (Ok pem)
  /\ forall rd, EKPem rd = pem -> EKPublic rd = Returns (Ok pk).
Proof.
  intros Heks Hloop Henc Hdec Hkey. split.
  - unfold rsaEKPEM. rewrite Heks, Hloop, Henc. reflexivity.
  - intros rd Hrd. unfold EKPublic. rewrite Hrd, Hdec, Hkey. reflexivity.
Qed.

Lemma string_append_inj (s a b : string) :
  (s ++ a)%string = (s ++ b)%string -> a = b.
Proof.
  induction s as [|c s IH]; [intros Heq; exact Heq|].
  rewrite !append_cons. intros [= Heq]. apply IH, Heq.
Qed.

Lemma url_eqb (addr a b : string) :
  String.eqb ("http://" ++ addr ++ a) ("http://" ++ addr ++ b)
  = String.eqb a b.
Proof.
  destruct (String.eqb_spec a b) as [->|Hne]; [apply String.eqb_refl|].
  apply String.eqb_neq. intros Heq.
  apply string_append_inj, string_append_inj in Heq. contradiction.
Qed.

Lemma route_pattern (addr : string) (p : rpc) :
  route addr ("http://" ++ addr ++ pattern p) = Some p.
Proof. unfold route. rewrite !url_eqb. destruct p; reflexivity. Qed.

(** A request of the client over the transport is the handler's answer to
    it on the server. *)
Lemma sendRequest_loopback (addr : string) (p : rpc) (rd : requestData)
    (w : world) :
  @sendRequest world (loopback addr) addr (pattern p) rd w
  = let '(s', r) := handle (hd [] (entropy w)) (srv w) p (JSONBody rd) in
    ({| srv := s'; entropy := tl (entropy w) |},
     match r with
     | json_Encode d => Returns (Ok d)
     | http_Error msg code =>
         if negb (code =? StatusOK)%Z
         then Returns (Err (ErrorString
                              (pattern p ++ " failed: " ++ status_line code)))
         else Returns (Err not_json)
     | handler_panic _ => Returns (Err (ErrorString "EOF"))
     end).
Proof.
  unfold sendRequest. simpl http_Post. unfold loopback_Post.
  rewrite route_pattern.
  destruct (handle (hd [] (entropy w)) (srv w) p (JSONBody rd)) as [s' r].
  destruct r as [msg code|d|msg]; simpl; try reflexivity.
  destruct (negb (code =? StatusOK)%Z); reflexivity.
Qed.

(** X24: the activation protocol end to end. When the client's EK reaches
    the server as a key [ek], a challenge with secret [secret] is generated
    for it and the TPM decrypts the credential to that same, non-empty
    secret, [runActivateCredential] returns no error and the server's
    record for the AIK is activated, holding [ek] and the secret. *)
Theorem runActivateCredential_activates (addr : string) (w : world)
    (aik : AIKHandle) (pem : bytes) (ek : rsa_PublicKey) (secret : bytes)
    (ec : EncryptedCredential) :
  loadAIK = Ok aik ->
  rsaEKPEM = Returns (Ok pem) ->
  EKPublic (challenge_request aik pem) = Returns (Ok ek) ->
  Generate (hd [] (entropy w))
           (challenge_parameters (challenge_request aik pem) ek)
  = Ok (secret, ec) ->
  aik_ActivateCredential aik ec = Ok secret ->
  secret <> [] ->
  exists w' c,
    @runActivateCredential _ world (loopback addr) addr w
    = (w', Returns (Ok tt))
    /\ record_of (srv w') (Public (aik_AttestationParameters aik)) = Some c
    /\ Activated c = true /\ EK c = Some ek /\ ActivationSecret c = secret
    /\ AIK c = aik_AttestationParameters aik.
Proof.
  intros Hload Hpem Hek Hgen Hact Hne.
  destruct (record_of_is_Some (srv w) (Public (aik_AttestationParameters aik)))
    as [c0 Hr0].
  destruct (challenge_succeeds _ (srv w) _ _ _ _ c0 Hek Hgen Hr0)
    as (s1 & Hch & Hr1).
  destruct (activate_succeeds s1 (activation_request aik secret) _ Hr1)
    as (s2 & Hac & _ & Hr2).
  { apply secret_check_match, Hne. }
  unfold runActivateCredential, io_bind, io_lift, io_ret.
  rewrite Hload, Hpem.
  change "/get/activation-challenge" with (pattern GetActivationChallenge).
  fold (challenge_request aik pem).
  rewrite sendRequest_loopback. simpl handle. rewrite Hch. simpl.
  rewrite Hact. simpl.
  change "/do/activation" with (pattern DoActivation).
  rewrite sendRequest_loopback. simpl handle. simpl srv.
  match goal with
  | |- context [activate s1 (JSONBody ?x)] =>
      change x with (activation_request aik secret)
  end.
  rewrite Hac.
  eexists _, _. split; [reflexivity|]. simpl srv.
  split; [rewrite Hr2; simpl; rewrite bytes_Equal_refl; reflexivity|].
  repeat split.
Qed.

(** X25: the same run with a TPM that decrypts the credential to anything
    but the generated secret: the client gets the error
    "/do/activation failed: 400 Bad Request", and the server's record holds
    the pending secret and is not activated. *)
Theorem runActivateCredential_rejected (addr : string) (w : world)
    (aik : AIKHandle) (pem : bytes) (ek : rsa_PublicKey)
    (secret claimed : bytes) (ec : EncryptedCredential) :
  loadAIK = Ok aik ->
  rsaEKPEM = Returns (Ok pem) ->
  EKPublic (challenge_request aik pem) = Returns (Ok ek) ->
  Generate (hd [] (entropy w))
           (challenge_parameters (challenge_request aik pem) ek)
  = Ok (secret, ec) ->
  aik_ActivateCredential aik ec = Ok claimed ->
  claimed <> secret ->
  exists w' c,
    @runActivateCredential _ world (loopback addr) addr w
    = (w', Returns (Err (ErrorString
                           "/do/activation failed: 400 Bad Request")))
    /\ record_of (srv w') (Public (aik_AttestationParameters aik)) = Some c
    /\ Activated c = false /\ ActivationSecret c = secret.
Proof.
  intros Hload Hpem Hek Hgen Hact Hne.
  destruct (record_of_is_Some (srv w) (Public (aik_AttestationParameters aik)))
    as [c0 Hr0].
  destruct (challenge_succeeds _ (srv w) _ _ _ _ c0 Hek Hgen Hr0)
    as (s1 & Hch & Hr1).
  destruct (activate_fails s1 (activation_request aik claimed) _ Hr1)
    as (s2 & Hac & Hr2).
  { apply secret_check_mismatch, Hne. }
  unfold runActivateCredential, io_bind, io_lift, io_ret.
  rewrite Hload, Hpem.
  change "/get/activation-challenge" with (pattern GetActivationChallenge).
  fold (challenge_request aik pem).
  rewrite sendRequest_loopback. simpl handle. rewrite Hch. simpl.
  rewrite Hact. simpl.
  change "/do/activation" with (pattern DoActivation).
  rewrite sendRequest_loopback. simpl handle. simpl srv.
  match goal with
  | |- context [activate s1 (JSONBody ?x)] =>
      change x with (activation_request aik claimed)
  end.
  rewrite Hac.
  eexists _, _. split; [reflexivity|]. simpl srv.
  split; [rewrite Hr2; exact Hr1|]. split; reflexivity.
Qed.

(** X26: the attestation round end to end. The client asks for a nonce,
    has the TPM quote over exactly that nonce and sends the quote; the
    server judges it against that nonce and keeps the verdict. The client
    returns no error as soon as the server produced a verdict, whether the
    verdict says the quote is valid or not. *)
Theorem runAttest_judged (addr : string) (w : world) (aik : AIKHandle)
    (pcrs : list PCR) (alg : Z) (h : HashAlg) (q : Quote)
    (v : QuoteVerificationResults) :
  loadAIK = Ok aik ->
  tpm_PCRs = Ok (pcrs, alg) ->
  attestAlg alg = Ok h ->
  aik_Quote aik (read_nonce (hd [] (entropy w))) h = Ok q ->
  quote_verdict (attest_request aik q pcrs) (read_nonce (hd [] (entropy w)))
  = Ok v ->
  exists w' c,
    @runAttest _ world (loopback addr) addr w = (w', Returns (Ok tt))
    /\ record_of (srv w') (Public (aik_AttestationParameters aik)) = Some c
    /\ Nonce c = read_nonce (hd [] (entropy w))
    /\ AttestResults c = Some v.
Proof.
  intros Hload Hpcrs Halg Hq Hv.
  destruct (getNonce_spec (read_nonce (hd [] (entropy w))) (srv w)
              (nonce_request aik)) as (s1 & Hn & Hr1 & _).
  destruct (record_of_is_Some (srv w) (Public (aik_AttestationParameters aik)))
    as [c0 Hr0].
  change (Public (rd_AIK (nonce_request aik)))
    with (Public (aik_AttestationParameters aik)) in Hr1.
  rewrite Hr0 in Hr1. simpl in Hr1.
  destruct (attest_judged s1 (attest_request aik q pcrs) _ Hr1)
    as (s2 & resp & Ha & Hj).
  change (Nonce (set_Nonce (read_nonce (hd [] (entropy w))) c0))
    with (read_nonce (hd [] (entropy w))) in Hj.
  rewrite Hv in Hj. destruct Hj as [-> Hr2].
  unfold runAttest, io_bind, io_lift, io_ret.
  rewrite Hload.
  change "/get/attest-nonce" with (pattern GetAttestNonce).
  fold (nonce_request aik).
  rewrite sendRequest_loopback. simpl handle. rewrite Hn. simpl.
  rewrite Hpcrs. simpl. rewrite Halg, Hq. simpl.
  change "/do/attest" with (pattern DoAttest).
  rewrite sendRequest_loopback. simpl handle. simpl srv.
  match goal with
  | |- context [attest s1 (JSONBody ?x)] =>
      change x with (attest_request aik q pcrs)
  end.
  rewrite Ha.
  eexists _, _. split; [reflexivity|]. simpl srv.
  split; [rewrite Hr2; simpl; rewrite bytes_Equal_refl; reflexivity|].
  split; reflexivity.
Qed.

(** X27: the register map the client sends holds, for each 32-bit index,
    the digest of the last PCR read with that index (taken modulo 2^32),
    and nothing for an index no PCR has. *)
Theorem outPCRs_last_wins (pcrs : list PCR) (k : N) :
  outPCRs pcrs !! k
  = Digest <$> last (filter (fun p => uint32 (Index p) = k) pcrs).
Proof.
  unfold outPCRs. induction pcrs as [|p pcrs IH] using rev_ind.
  - reflexivity.
  - rewrite foldl_app, filter_app. simpl foldl.
    destruct (decide (uint32 (Index p) = k)) as [Hk|Hk].
    + rewrite Hk, lookup_insert_eq.
      rewrite filter_cons_True by assumption. rewrite filter_nil, last_snoc.
      reflexivity.
    + rewrite lookup_insert_ne by assumption.
      rewrite filter_cons_False by assumption.
      rewrite filter_nil, app_nil_r. exact IH.
Qed.

End ClientFacts.

(** * The further theorems at concrete inputs *)

Section MoreRuns.
Import Demo.

Lemma other_records_untouched_witness :
  record_of (fst (@handle toy [x0a] challenged DoActivation
                    (JSONBody (request [x01] [] [x0a; x0b] [] [])))) [x02]
  = record_of challenged [x02].
Proof.
  eapply (@other_records_untouched toy [x0a] challenged _ DoActivation
            (JSONBody (request [x01] [] [x0a; x0b] [] [])) _ [x02]);
    [reflexivity|discriminate].
Defined.

Lemma clientInfo_get_or_create_witness :
  (exists c, load {| state := [clientInfo_new [x01]] |} 0 = Some c
             /\ blob c = [x01])
  /\ ({| state := [clientInfo_new [x01]] |} = empty_server
      \/ (([x01] ∉ (blob <$> state empty_server))
          /\ state {| state := [clientInfo_new [x01]] |}
             = state empty_server ++ [clientInfo_new [x01]]
          /\ load {| state := [clientInfo_new [x01]] |} 0
             = Some (clientInfo_new [x01])))
  /\ server_clientInfo {| state := [clientInfo_new [x01]] |} [x01]
     = ({| state := [clientInfo_new [x01]] |}, 0%nat).
Proof.
  apply (clientInfo_get_or_create empty_server
           {| state := [clientInfo_new [x01]] |} [x01] 0).
  reflexivity.
Defined.

Lemma failed_challenge_keeps_state_witness :
  fst (@activationGetChallenge toy [x0a] challenged
         (JSONBody (request [x02] [x31] [] [] []))) = challenged.
Proof.
  eapply (@failed_challenge_keeps_state toy [x0a] challenged _
            (JSONBody (request [x02] [x31] [] [] [])) _);
    [reflexivity|discriminate].
Defined.

Lemma activate_accepts_iff_witness :
  (snd (activate challenged (JSONBody (request [x01] [] [x0a; x0b] [] [])))
   = json_Encode responseData_zero
   <-> ActivationSecret challenged_record <> []
       /\ DecryptedCredential (request [x01] [] [x0a; x0b] [] [])
          = ActivationSecret challenged_record)
  /\ (snd (activate challenged (JSONBody (request [x01] [] [x0a; x0b] [] [])))
      = json_Encode responseData_zero
      \/ snd (activate challenged
                (JSONBody (request [x01] [] [x0a; x0b] [] [])))
         = http_Error "Activation failed" StatusBadRequest).
Proof.
  apply (activate_accepts_iff challenged (request [x01] [] [x0a; x0b] [] [])
           challenged_record).
  reflexivity.
Defined.

Lemma challenge_then_activate_witness :
  exists ek secret,
    @Generate toy [x0a; x0b]
      (challenge_parameters (request [x01] [x30] [] [] []) ek)
    = Ok (secret, {| Credential := [x0a; x0b]; Secret := [x01] |})
    /\ (snd (activate challenged
               (JSONBody (request [x01] [] [x0a; x0b] [] [])))
        = json_Encode responseData_zero
        <-> secret <> []
            /\ DecryptedCredential (request [x01] [] [x0a; x0b] [] [])
               = secret).
Proof.
  apply (@challenge_then_activate toy [x0a; x0b] empty_server challenged
           (request [x01] [x30] [] [] []) (request [x01] [] [x0a; x0b] [] [])
           {| ActivationChallenge := {| Credential := [x0a; x0b];
                                        Secret := [x01] |};
              resp_Nonce := [] |});
    reflexivity.
Defined.

Lemma attest_verdict_witness :
  exists s1,
    @attest toy challenged (JSONBody (request [x01] [] [] [] [x01]))
    = (s1, json_Encode responseData_zero)
    /\ record_of s1 [x01]
       = Some (set_AttestResults
                 {| succeeded := true; signature_mismatch := false;
                    pcr_digest := []; pcr_digest_mismatch := false;
                    nonce_mismatch := false |} challenged_record).
Proof.
  apply (@attest_verdict toy challenged (request [x01] [] [] [] [x01])
           challenged_record).
  reflexivity.
Defined.

Lemma attest_unknown_blob_witness :
  @attest toy challenged (JSONBody (request [x02] [] [] [x07] [x02]))
  = ({| state := state challenged
                 ++ [set_AttestResults
                       {| succeeded := false; signature_mismatch := false;
                          pcr_digest := []; pcr_digest_mismatch := false;
                          nonce_mismatch := true |}
                       (clientInfo_new [x02])] |},
     json_Encode responseData_zero).
Proof.
  apply (@attest_unknown_blob toy challenged
           (request [x02] [] [] [x07] [x02])).
  - vm_compute. intros Hin. apply list_elem_of_singleton in Hin. discriminate.
  - reflexivity.
Defined.

End MoreRuns.

Section MorePoolRuns.
Import Verifier.

Lemma parseCertsToPool_skips_directories_witness :
  (forall pool,
     @parseCertsToPool_body toy_x509 toy_fs "/certs/other/RootCA" pool
       (dir_entry "old") = go_ok pool)
  /\ forall before after pool,
       @parseCertsToPool toy_x509 toy_fs "/certs/other/RootCA"
         (before ++ dir_entry "old" :: after) pool
       = @parseCertsToPool toy_x509 toy_fs "/certs/other/RootCA"
           (before ++ after) pool.
Proof.
  apply (@parseCertsToPool_skips_directories toy_x509 toy_fs
           "/certs/other/RootCA" (dir_entry "old")).
  reflexivity.
Defined.

Lemma der_file_witness :
  @parseCertsToPool_body toy_x509 toy_fs "/certs/vendor/IntermediateCA"
    (toy_pool []) (file_entry "ca.der")
  = go_ok (toy_pool [toy_cert [x30; x82; x01; x0a]]).
Proof.
  apply (proj1 (@der_file toy_x509 toy_fs "/certs/vendor/IntermediateCA"
                  (toy_pool []) (file_entry "ca.der") [x30; x82; x01; x0a]
                  eq_refl eq_refl eq_refl)).
  reflexivity.
Defined.

Lemma crt_cer_file_witness :
  @parseCertsToPool_body toy_x509 toy_fs "/certs/other/RootCA"
    (toy_pool []) (file_entry "root.crt")
  = go_ok (toy_pool [toy_cert [x30; x82]]).
Proof.
  apply (proj1 (@crt_cer_file toy_x509 toy_fs "/certs/other/RootCA"
                  (toy_pool []) (file_entry "root.crt") [x30; x82]
                  eq_refl (or_introl eq_refl) eq_refl)).
  reflexivity.
Defined.

Lemma NewEKVerifier_unlistable_witness :
  returned (@NewEKVerifier toy_x509 toy_fs ["/certs"; "/nowhere"]) = false
  /\ @NewEKVerifier toy_x509 toy_fs ["/nowhere"; "/certs"]
     = go_err (no_such_file "/nowhere").
Proof.
  split.
  - apply (proj1 (@NewEKVerifier_unlistable toy_x509 toy_fs
                    ["/certs"; "/nowhere"] "/nowhere"
                    (no_such_file "/nowhere") eq_refl)).
    right. left. reflexivity.
  - apply (proj2 (@NewEKVerifier_unlistable toy_x509 toy_fs
                    ["/certs"] "/nowhere" (no_such_file "/nowhere") eq_refl)).
Defined.

Lemma NewEKVerifier_skips_files_witness :
  @NewEKVerifier_entries toy_x509 toy_fs "/certs"
    ([] ++ file_entry "README.md" :: [dir_entry "other"; dir_entry "vendor"])
    (toy_pool [], toy_pool [])
  = @NewEKVerifier_entries toy_x509 toy_fs "/certs"
      ([] ++ [dir_entry "other"; dir_entry "vendor"])
      (toy_pool [], toy_pool []).
Proof.
  apply (@NewEKVerifier_skips_files toy_x509 toy_fs "/certs"
           (file_entry "README.md") eq_refl []
           [dir_entry "other"; dir_entry "vendor"]).
Defined.

Lemma readCertificates_pools_apart_witness :
  (toy_pool [] = toy_pool [] ->
   toy_pool [toy_cert [x30; x82]] = toy_pool [toy_cert [x30; x82]])
  /\ (toy_pool [] = toy_pool [toy_cert [x07]] ->
      toy_pool [] = toy_pool [toy_cert [x07]]).
Proof.
  apply (@readCertificates_pools_apart toy_x509 toy_fs "/certs/other"
           (toy_pool []) (toy_pool []) (toy_pool [])
           (toy_pool [toy_cert [x07]])); reflexivity.
Defined.

Lemma VerifyEKCert_lenient_witness :
  @VerifyEKCert lax_x509 lax_verifier [x30]
  = @VerifyEKCert lax_x509 lax_verifier [x30; x82; x01].
Proof.
  eapply (@VerifyEKCert_lenient lax_x509 lax_verifier [x30] [x30; x82; x01]);
    reflexivity.
Defined.

Lemma parseCertsToPool_app_witness :
  @parseCertsToPool toy_x509 toy_fs "/certs/other/RootCA"
    ([file_entry "LICENSE"; file_entry "missing.der"]
     ++ [file_entry "root.crt"]) (toy_pool [])
  = @parseCertsToPool toy_x509 toy_fs "/certs/other/RootCA"
      [file_entry "LICENSE"; file_entry "missing.der"] (toy_pool []).
Proof.
  apply (proj2 (@parseCertsToPool_app toy_x509 toy_fs "/certs/other/RootCA"
                  [file_entry "LICENSE"; file_entry "missing.der"]
                  [file_entry "root.crt"] (toy_pool []))).
  reflexivity.
Defined.

Lemma VerifyEKCert_error_witness :
  @VerifyEKCert toy_x509 toy_verifier [x31] = Panics nil_dereference.
Proof.
  apply (proj2 (@VerifyEKCert_error toy_x509 toy_verifier [x31])
           (Some (X509Error true "asn1: structure error"))).
  reflexivity.
Defined.

End MorePoolRuns.

Section MoreClientRuns.
Import Demo Client.


Lemma EK_round_trip_witness :
  @rsaEKPEM (toy_tpm [toy_ek]) = Returns (Ok [x30])
  /\ forall rd, EKPem rd = [x30] ->
                @EKPublic toy rd = Returns (Ok {| rsa_N := 3233; rsa_E := 17 |}).
Proof.
  apply (@EK_round_trip toy (toy_tpm [toy_ek]) [toy_ek]
           {| rsa_N := 3233; rsa_E := 17 |} [x30]); reflexivity.
Defined.

Lemma runActivateCredential_activates_witness :
  exists w' c,
    @runActivateCredential (toy_tpm [toy_ek]) world
      (@loopback toy "localhost:8030") "localhost:8030"
      (fresh_world [[x0a; x0b]])
    = (w', Returns (Ok tt))
    /\ record_of (srv w') [x01] = Some c
    /\ Activated c = true
    /\ EK c = Some {| rsa_N := 3233; rsa_E := 17 |}
    /\ ActivationSecret c = [x0a; x0b]
    /\ AIK c = aik_of [x01].
Proof.
  apply (@runActivateCredential_activates toy (toy_tpm [toy_ek])
           "localhost:8030" (fresh_world [[x0a; x0b]]) [x01] [x30]
           {| rsa_N := 3233; rsa_E := 17 |} [x0a; x0b]
           {| Credential := [x0a; x0b]; Secret := [x01] |});
    try reflexivity.
  discriminate.
Defined.

Lemma runActivateCredential_rejected_witness :
  exists w' c,
    @runActivateCredential forgetful_tpm world
      (@loopback toy "localhost:8030") "localhost:8030"
      (fresh_world [[x0a; x0b]])
    = (w', Returns (Err (ErrorString
                           "/do/activation failed: 400 Bad Request")))
    /\ record_of (srv w') [x01] = Some c
    /\ Activated c = false /\ ActivationSecret c = [x0a; x0b].
Proof.
  apply (@runActivateCredential_rejected toy forgetful_tpm
           "localhost:8030" (fresh_world [[x0a; x0b]]) [x01] [x30]
           {| rsa_N := 3233; rsa_E := 17 |} [x0a; x0b] [x00]
           {| Credential := [x0a; x0b]; Secret := [x01] |});
    try reflexivity.
  discriminate.
Defined.

Lemma runAttest_judged_witness :
  exists w' c,
    @runAttest (toy_tpm [toy_ek]) world
      (@loopback toy "localhost:8030") "localhost:8030"
      (fresh_world [[x0a; x0b]])
    = (w', Returns (Ok tt))
    /\ record_of (srv w') [x01] = Some c
    /\ Nonce c = read_nonce [x0a; x0b]
    /\ AttestResults c
       = Some {| succeeded := true; signature_mismatch := false;
                 pcr_digest := []; pcr_digest_mismatch := false;
                 nonce_mismatch := false |}.
Proof.
  apply (@runAttest_judged toy (toy_tpm [toy_ek]) "localhost:8030"
           (fresh_world [[x0a; x0b]]) [x01]
           [ {| Index := 0; Digest := [xaa] |};
             {| Index := 7; Digest := [xbb] |} ]
           tpm2_AlgSHA256 HashSHA256
           {| Quote_Quote := read_nonce [x0a; x0b];
              Quote_Signature := [x01] |});
    reflexivity.
Defined.

End MoreClientRuns.
